(** * find-all-js-imports: the recursive import traversal

    A shallow embedding of [library/index.js] and
    [library/utilities/helpers.js]: the validator, the node tests, the
    three entry points [findAllImports], [findAllImportsWithCallbackSync]
    and [findAllImportsWithCallbackAsync], and the properties of the
    traversal they implement.

    Conventions of the embedding.
    - JavaScript values that reach a [typeof] or [instanceof] test are
      values of [JSValue]; numbers are integers ([Z]), which stand for
      the code's numbers on the safe integers ([isSafeInteger]): a depth
      is a count of nested calls.
    - A JavaScript [Set] is the list of its elements in insertion order;
      [add] appends an element that is not there yet.
    - The visited set is one object shared by every frame of a traversal.
      Each function receives its current contents and returns, next to
      its result, the contents it leaves behind.
    - The recursion of the source is general; the functions here take a
      [fuel] argument and answer [None] when it runs out. *)

From Stdlib Require Import ZArith List String Ascii Bool Lia Arith DecimalString.
Import ListNotations.
Open Scope string_scope.

(** ** JavaScript values *)

Inductive Prim : Type :=
| PUndefined
| PNull
| PBoolean (b : bool)
| PNumber (n : Z)
| PString (s : string).

Inductive JSValue : Type :=
| VPrim (p : Prim)
| VSet (elements : list Prim)
| VArray (elements : list Prim)
| VObject.

Abbreviation VUndefined := (VPrim PUndefined).
Abbreviation VNumber n := (VPrim (PNumber n)).
Abbreviation VString s := (VPrim (PString s)).

(** [typeof v]. *)
Definition typeof (v : JSValue) : string :=
  match v with
  | VPrim PUndefined => "undefined"
  | VPrim PNull => "object"
  | VPrim (PBoolean _) => "boolean"
  | VPrim (PNumber _) => "number"
  | VPrim (PString _) => "string"
  | VSet _ | VArray _ | VObject => "object"
  end.

(** [!!v]. *)
Definition truthy (v : JSValue) : bool :=
  match v with
  | VPrim PUndefined | VPrim PNull => false
  | VPrim (PBoolean b) => b
  | VPrim (PNumber n) => negb (n =? 0)%Z
  | VPrim (PString s) => negb (s =? "")
  | VSet _ | VArray _ | VObject => true
  end.

(** [Array.isArray(v)]. *)
Definition isArray (v : JSValue) : bool :=
  match v with VArray _ => true | _ => false end.

(** [Number.isSafeInteger(n)] for an integer: at most [2^53 - 1] in
    absolute value.  The code's numbers are doubles; on safe integers
    the sum [depth + 1], the comparison [depth > maxDepth] and the
    conversion to a string are those of the integers. *)
Definition isSafeInteger (n : Z) : bool := (Z.abs n <=? 2 ^ 53 - 1)%Z.

(** [`${n}`] for a safe integer: its digits. *)
Definition numberToString (n : Z) : string :=
  NilZero.string_of_int (Z.to_int n).

(** The contents of a [Set<string>] as a JavaScript value. *)
Definition setOf (l : list string) : JSValue := VSet (map PString l).

(** ** The syntax tree the code looks at

    Only the fields read by the node tests are kept; the value of a
    literal is the string the code passes on as an import path. *)

#[warnings="-register-all"]
Inductive Expression : Type :=
| Literal (value : string)
| Identifier (name : string)
| CallExpression (callee : Expression) (arguments : list Expression)
| ImportExpression (source : Expression)
| AwaitExpression (argument : Expression)
| MemberExpression (object : Expression) (property : string)
| TemplateLiteral
| ThisExpression.

(** Statements the traversal has no test for. *)
Inductive OtherKind : Type :=
| VariableDeclaration
| FunctionDeclaration
| ClassDeclaration
| ExportNamedDeclaration
| ExportDefaultDeclaration
| ExportAllDeclaration
| IfStatement
| BlockStatement
| EmptyStatement.

(** An element of [sourceCode.ast.body].  [ImportExpressionNode] is an
    element whose own [type] is ["ImportExpression"]; a statement made of
    the expression [import('s')] is
    [ExpressionStatement (ImportExpression (Literal s))]. *)
Inductive Node : Type :=
| ImportDeclaration (source_value : string)
| ExpressionStatement (expression : Expression)
| ImportExpressionNode (source_value : string)
| OtherStatement (kind : OtherKind).

Record Program : Type := { body : list Node }.
Record SourceCode : Type := { ast : option Program }.

Definition expression_type (e : Expression) : string :=
  match e with
  | Literal _ => "Literal"
  | Identifier _ => "Identifier"
  | CallExpression _ _ => "CallExpression"
  | ImportExpression _ => "ImportExpression"
  | AwaitExpression _ => "AwaitExpression"
  | MemberExpression _ _ => "MemberExpression"
  | TemplateLiteral => "TemplateLiteral"
  | ThisExpression => "ThisExpression"
  end.

Definition kind_type (k : OtherKind) : string :=
  match k with
  | VariableDeclaration => "VariableDeclaration"
  | FunctionDeclaration => "FunctionDeclaration"
  | ClassDeclaration => "ClassDeclaration"
  | ExportNamedDeclaration => "ExportNamedDeclaration"
  | ExportDefaultDeclaration => "ExportDefaultDeclaration"
  | ExportAllDeclaration => "ExportAllDeclaration"
  | IfStatement => "IfStatement"
  | BlockStatement => "BlockStatement"
  | EmptyStatement => "EmptyStatement"
  end.

Definition node_type (n : Node) : string :=
  match n with
  | ImportDeclaration _ => "ImportDeclaration"
  | ExpressionStatement _ => "ExpressionStatement"
  | ImportExpressionNode _ => "ImportExpression"
  | OtherStatement k => kind_type k
  end.

(** [node.source.value]; only read behind a test that makes it defined. *)
Definition node_source_value (n : Node) : string :=
  match n with
  | ImportDeclaration s => s
  | ImportExpressionNode s => s
  | _ => ""
  end.

(** [node.expression.callee.name]. *)
Definition callee_name (e : Expression) : option string :=
  match e with
  | CallExpression (Identifier n) _ => Some n
  | _ => None
  end.

(** [node.expression.arguments[0]]. *)
Definition first_argument (e : Expression) : option Expression :=
  match e with
  | CallExpression _ (a :: _) => Some a
  | _ => None
  end.

(** [node.expression.arguments[0].value]; only read behind
    [nodeIsRequireCall]. *)
Definition node_first_argument_value (n : Node) : string :=
  match n with
  | ExpressionStatement e =>
      match first_argument e with
      | Some (Literal v) => v
      | _ => ""
      end
  | _ => ""
  end.

Definition nodeIsImportDeclaration (node : Node) : bool :=
  node_type node =? "ImportDeclaration".

Definition nodeIsImportExpression (node : Node) : bool :=
  node_type node =? "ImportExpression".

Definition nodeIsRequireCall (node : Node) : bool :=
  (node_type node =? "ExpressionStatement") &&
  match node with
  | ExpressionStatement e =>
      (expression_type e =? "CallExpression") &&
      match callee_name e with
      | Some n => n =? "require"
      | None => false
      end &&
      match first_argument e with
      | Some a => expression_type a =? "Literal"
      | None => false
      end
  | _ => false
  end.

(** ** Results *)

Record ErrorObject : Type := { type : string; message : string }.

(** [constants/bases.js] *)
Definition typeError : string := "error".
Definition typeWarning : string := "warning".

(** The two shapes [{success: true, ...}] and [{success: false, errors}]. *)
Inductive Outcome (T : Type) : Type :=
| SuccessTrue (payload : T)
| SuccessFalse (errors : list ErrorObject).
Arguments SuccessTrue {T} payload.
Arguments SuccessFalse {T} errors.

Definition success {T} (r : Outcome T) : bool :=
  match r with SuccessTrue _ => true | SuccessFalse _ => false end.

(** [FindAllImportsResults]: on success, the visited set. *)
Definition FindAllImportsResults : Type := Outcome (list string).

(** What a call does: it returns a value or it throws.  For the
    asynchronous entry point, [Normal] is a fulfilled promise and [Throw]
    a rejected one. *)
Inductive Completion (T : Type) : Type :=
| Normal (value : T)
| Throw (error : string).
Arguments Normal {T} value.
Arguments Throw {T} error.

Definition makeSuccessFalseTypeError {T} (message : string) : Outcome T :=
  SuccessFalse [ {| type := typeError; message := message |} ].

Definition makeIsSupposedToBe (paramName paramKind : string) : string :=
  paramName ++ " is supposed to be " ++ paramKind ++ ".".

(** ** The collaborators *)

Record Env : Type := {
  (** [process.cwd()] *)
  process_cwd : string;
  (** [fs.existsSync] *)
  fs_existsSync : string -> bool;
  (** [getSourceCodeFromFilePath]; [None] is an absent result *)
  getSourceCodeFromFilePath : string -> option SourceCode;
  (** [path.dirname] *)
  path_dirname : string -> string;
  (** [resolveImportingPath currentDir importPath cwd]; [None] is a
      result that is not a string *)
  resolveImportingPath : string -> string -> string -> option string
}.

(** ** Options and validation *)

Record Options : Type := {
  cwd : JSValue;
  visitedSet : JSValue;
  depth : JSValue;
  maxDepth : JSValue
}.

(** A call that passes no options. *)
Definition noOptions : Options :=
  {| cwd := VUndefined; visitedSet := VUndefined;
     depth := VUndefined; maxDepth := VUndefined |}.

(** A default parameter value: used when the argument is [undefined]. *)
Definition orDefault (v d : JSValue) : JSValue :=
  match v with VPrim PUndefined => d | _ => v end.

(** What [validateFilePathAndOptions] hands back on success: the inputs,
    now known to have their types, and the parsed file.  [v_program] is
    the [ast] that the last test found in [v_sourceCode]. *)
Record Validated : Type := {
  v_filePath : string;
  v_cwd : string;
  v_visitedSet : list string;
  v_depth : Z;
  v_maxDepth : Z;
  v_sourceCode : SourceCode;
  v_program : Program
}.

(** [constants/schemas.js]: [z.set(z.string(...))].  One issue for each
    element that is not a string. *)
Definition isString (p : Prim) : bool :=
  match p with PString _ => true | _ => false end.

Fixpoint stringsOf (l : list Prim) : list string :=
  match l with
  | [] => []
  | PString s :: l' => s :: stringsOf l'
  | _ :: l' => stringsOf l'
  end.

Inductive SafeParse : Type :=
| ParseData (data : list string)
| ParseIssues (issues : list string).

Definition VisitedSetSchema_safeParse (v : JSValue) : SafeParse :=
  match v with
  | VSet elements =>
      if forallb isString elements then ParseData (stringsOf elements)
      else ParseIssues
             (map (fun _ => "All values within visitedSet should be strings.")
                  (filter (fun p => negb (isString p)) elements))
  | _ => ParseIssues ["visitedSet should be a Set."]
  end.

Section Engine.

Variable env : Env.

Definition validateFilePathAndOptions
    (filePath : JSValue) (options : Options) : Outcome Validated :=
  match filePath with
  | VPrim (PString fp) =>
    match cwd options with
    | VPrim (PString c) =>
      match visitedSet options with
      | VSet _ =>
        match depth options with
        | VPrim (PNumber d) =>
          match maxDepth options with
          | VPrim (PNumber m) =>
            match VisitedSetSchema_safeParse (visitedSet options) with
            | ParseIssues issues =>
                SuccessFalse
                  ({| type := typeError;
                      message :=
                        "ERROR. Config data could not pass validation from zod." |}
                   :: map (fun e => {| type := typeError; message := e |}) issues)
            | ParseData vs =>
                if (d >? m)%Z then
                  makeSuccessFalseTypeError
                    ("ERROR. Max depth " ++ numberToString m ++
                     " reached at " ++ fp ++ ".")
                else if negb (fs_existsSync env fp) then
                  makeSuccessFalseTypeError
                    ("ERROR. File not found at " ++ fp ++ ".")
                else
                  match getSourceCodeFromFilePath env fp with
                  | Some sourceCode =>
                      match ast sourceCode with
                      | Some program =>
                          SuccessTrue
                            {| v_filePath := fp; v_cwd := c;
                               v_visitedSet := vs; v_depth := d;
                               v_maxDepth := m;
                               v_sourceCode := sourceCode;
                               v_program := program |}
                      | None =>
                          makeSuccessFalseTypeError
                            ("ERROR. Failed to parse AST for " ++ fp ++
                             " somehow.")
                      end
                  | None =>
                      makeSuccessFalseTypeError
                        ("ERROR. Failed to parse AST for " ++ fp ++ " somehow.")
                  end
            end
          | _ =>
              makeSuccessFalseTypeError
                ("ERROR. " ++ makeIsSupposedToBe "maxDepth" "a number")
          end
        | _ =>
            makeSuccessFalseTypeError
              ("ERROR. " ++ makeIsSupposedToBe "depth" "a number")
        end
      | _ =>
          makeSuccessFalseTypeError
            ("ERROR. " ++ makeIsSupposedToBe "visitedSet" "a Set")
      end
    | _ =>
        makeSuccessFalseTypeError
          ("ERROR. " ++ makeIsSupposedToBe "cwd" "a string")
    end
  | _ =>
      makeSuccessFalseTypeError
        ("ERROR. " ++ makeIsSupposedToBe "filePath" "a string")
  end.

(** [visitedSet.has(filePath)] *)
Definition visitedSetHasPreviousVisit
    (visitedSet : list string) (filePath : string) : bool :=
  existsb (String.eqb filePath) visitedSet.

(** [visitedSet.add(filePath)] *)
Definition updateVisitedSet
    (visitedSet : list string) (filePath : string) : list string :=
  if existsb (String.eqb filePath) visitedSet then visitedSet
  else visitedSet ++ [filePath].

(** The settings of [processImport].  [s_visitedSet] is the shared set:
    the scan refreshes it with the contents each child leaves behind. *)
Record Settings : Type := {
  currentDir : string;
  s_cwd : string;
  s_visitedSet : list string;
  s_depth : Z;
  s_maxDepth : Z
}.

Definition makeProcessImportSettings (filePath : string)
    (cwd : string) (visitedSet : list string) (depth maxDepth : Z)
    : Settings :=
  {| currentDir := path_dirname env filePath;
     s_cwd := cwd;
     s_visitedSet := visitedSet;
     s_depth := depth;
     s_maxDepth := maxDepth |}.

Definition makeFindAllImportsOptions
    (cwd : string) (visitedSet : list string) (depth maxDepth : Z)
    : Options :=
  {| cwd := VString cwd;
     visitedSet := setOf visitedSet;
     depth := VNumber (depth + 1);
     maxDepth := VNumber maxDepth |}.

Definition withVisitedSet (s : Settings) (vs : list string) : Settings :=
  {| currentDir := currentDir s;
     s_cwd := s_cwd s;
     s_visitedSet := vs;
     s_depth := s_depth s;
     s_maxDepth := s_maxDepth s |}.

(** [!resolvedPath] *)
Definition resolved (r : option string) : option string :=
  match r with
  | Some p => if p =? "" then None else Some p
  | None => None
  end.

(** *** [findAllImports] *)

(** A run: out of fuel, or a result and the contents of the visited set
    object after the call. *)
Definition Run : Type := option (FindAllImportsResults * JSValue).

Definition processImport (self : JSValue -> Options -> Run)
    (importPath : string) (settings : Settings) : Run :=
  match resolved (resolveImportingPath env (currentDir settings) importPath
                    (s_cwd settings)) with
  | None =>
      Some (SuccessTrue (s_visitedSet settings), setOf (s_visitedSet settings))
  | Some resolvedPath =>
      self (VString resolvedPath)
           (makeFindAllImportsOptions (s_cwd settings) (s_visitedSet settings)
              (s_depth settings) (s_maxDepth settings))
  end.

(** [if (test) { const r = call; if (!r.success) return r; }] followed
    by the rest of the loop body, [next], which sees the visited set as
    the call left it. *)
Definition guarded (test : bool) (call : Run) (vs : list string)
    (next : list string -> Run) : Run :=
  if test then
    match call with
    | None => None
    | Some (SuccessFalse errors, store) => Some (SuccessFalse errors, store)
    | Some (SuccessTrue vs', _) => next vs'
    end
  else next vs.

(** [for (const node of sourceCode.ast.body) { ... }] and the final
    [return]. *)
Fixpoint scanBody (self : JSValue -> Options -> Run)
    (nodes : list Node) (settings : Settings) : Run :=
  match nodes with
  | [] =>
      Some (SuccessTrue (s_visitedSet settings), setOf (s_visitedSet settings))
  | node :: rest =>
      guarded (nodeIsImportDeclaration node)
        (processImport self (node_source_value node) settings)
        (s_visitedSet settings) (fun vs1 =>
      guarded (nodeIsImportExpression node)
        (processImport self (node_source_value node)
           (withVisitedSet settings vs1))
        vs1 (fun vs2 =>
      guarded (nodeIsRequireCall node)
        (processImport self (node_first_argument_value node)
           (withVisitedSet settings vs2))
        vs2 (fun vs3 =>
      scanBody self rest (withVisitedSet settings vs3))))
  end.

(** The options with their defaults filled in. *)
Definition withDefaults (options : Options) : Options :=
  {| cwd := orDefault (cwd options) (VString (process_cwd env));
     visitedSet := orDefault (visitedSet options) (VSet []);
     depth := orDefault (depth options) (VNumber 0);
     maxDepth := orDefault (maxDepth options) (VNumber 100) |}.

Fixpoint findAllImports (fuel : nat) (filePath : JSValue) (options : Options)
    {struct fuel} : Run :=
  match fuel with
  | O => None
  | S fuel' =>
      let options := withDefaults options in
      match validateFilePathAndOptions filePath options with
      | SuccessFalse errors => Some (SuccessFalse errors, visitedSet options)
      | SuccessTrue v =>
          if visitedSetHasPreviousVisit (v_visitedSet v) (v_filePath v) then
            Some (SuccessTrue (v_visitedSet v), setOf (v_visitedSet v))
          else
            let visitedSet := updateVisitedSet (v_visitedSet v) (v_filePath v) in
            let processImportSettings :=
              makeProcessImportSettings (v_filePath v)
                (v_cwd v) visitedSet (v_depth v) (v_maxDepth v) in
            scanBody (findAllImports fuel') (body (v_program v))
              processImportSettings
      end
  end.

End Engine.

(** ** The callback variants *)

(** A value thrown by the callback, as the [catch] block reads it: the
    block puts it in a template literal, [`${e}`], which converts it to a
    string.  A string, a number, an [Error] convert to a text; a Symbol
    does not, nor does an object whose conversion to a primitive value
    throws: the conversion then throws an error of its own. *)
Inductive Thrown : Type :=
| ThrownPrintable (text : string)
| ThrownSymbol
| ThrownUnprintable (error : string).

Definition cannotConvertSymbol : string :=
  "TypeError: Cannot convert a Symbol value to a string".

(** [`${e}`] *)
Definition templateString (e : Thrown) : Completion string :=
  match e with
  | ThrownPrintable text => Normal text
  | ThrownSymbol => Throw cannotConvertSymbol
  | ThrownUnprintable error => Throw error
  end.

Section Callbacks.

Variable env : Env.

(** The type of the accumulator's contents. *)
Variable A : Type.

(** What one invocation of the callback does: the contents it leaves in
    the accumulator, and the value it throws, if any.  For the
    asynchronous variant [thrown] is the reason of a rejected promise.
    The callback is one whose invocations complete. *)
Record CallbackReturn : Type := {
  acc_after : A;
  thrown : option Thrown
}.

Definition Callback : Type := string -> SourceCode -> A -> CallbackReturn.

(** [callbackConfig.callback]: a function, or some other value. *)
Inductive CallbackProperty : Type :=
| CallbackFunction (f : Callback)
| CallbackOther (v : JSValue).

(** The [callbackConfig] argument: an object with the two properties, or
    some other value. *)
Inductive CallbackConfigValue : Type :=
| ConfigObject (callback : CallbackProperty) (accumulator : A)
| ConfigOther (v : JSValue).

Definition validateCallbackConfig (callbackConfig : CallbackConfigValue)
    : Outcome (Callback * A) :=
  match callbackConfig with
  | ConfigOther v =>
      if negb (truthy v) || negb (typeof v =? "object") || isArray v then
        makeSuccessFalseTypeError
          "ERROR. Invalid callbackConfig format. The callbackConfig should be an object."
      else
        makeSuccessFalseTypeError
          "ERROR. Invalid callbackConfig.callback format. The callbackConfig.callback should be a function."
  | ConfigObject (CallbackOther _) _ =>
      makeSuccessFalseTypeError
        "ERROR. Invalid callbackConfig.callback format. The callbackConfig.callback should be a function."
  | ConfigObject (CallbackFunction f) accumulator =>
      SuccessTrue (f, accumulator)
  end.

(** One invocation of the callback, as an observer sees it: the file, the
    contents of the visited set and of the accumulator at that moment,
    and what the callback threw, if anything. *)
Record Invocation : Type := {
  inv_filePath : string;
  inv_visitedSet : list string;
  inv_accumulator : A;
  inv_thrown : option Thrown
}.

(** What a call leaves behind: the contents of the visited set object,
    the callback configuration object, and the callback invocations so
    far (kept for the statements only; the code does not read it). *)
Record Heap : Type := {
  h_visitedSet : JSValue;
  h_callbackConfig : CallbackConfigValue;
  h_trace : list Invocation
}.

(** [FindAllImportsResultsWithAccumulator] *)
Definition FindAllImportsResultsWithAccumulator : Type :=
  Outcome (list string * A).

Definition CbRun : Type :=
  option (Completion FindAllImportsResultsWithAccumulator * Heap).

(** The two ways the source calls [processImportWithCallbackSync] and
    [processImportWithCallbackAsync]: with [(importPath, callbackConfig,
    settings)], or with [(importPath, settings)] only, which leaves the
    third parameter [undefined]. *)
Inductive ProcessImportArguments : Type :=
| ThreeArguments (callback : Callback) (accumulator : A) (settings : Settings)
| TwoArguments (settings : Settings).

Definition destructureUndefined : string :=
  "TypeError: Cannot destructure property 'currentDir' of 'undefined' as it is undefined.".

Definition newline : string := String "010"%char EmptyString.

Definition callbackErrorMessage (filePath e : string) : string :=
  "ERROR. Callback error in " ++ filePath ++ ". " ++ newline ++
  "Error: " ++ newline ++ e.

(** The [catch (e)] block: the failure made from the thrown value, when
    the template literal of its message can be built. *)
Definition caught (filePath : string) (e : Thrown)
    : Completion FindAllImportsResultsWithAccumulator :=
  match templateString e with
  | Normal text =>
      Normal (makeSuccessFalseTypeError (callbackErrorMessage filePath text))
  | Throw error => Throw error
  end.

Definition guardedCb (test : bool) (call : CbRun)
    (vs : list string) (acc : A) (heap : Heap)
    (next : list string -> A -> Heap -> CbRun) : CbRun :=
  if test then
    match call with
    | None => None
    | Some (Throw e, h) => Some (Throw e, h)
    | Some (Normal (SuccessFalse errors), h) =>
        Some (Normal (SuccessFalse errors), h)
    | Some (Normal (SuccessTrue (vs', acc')), h) => next vs' acc' h
    end
  else next vs acc heap.

(** *** [findAllImportsWithCallbackSync] *)

Definition processImportWithCallbackSync
    (self : JSValue -> CallbackConfigValue -> Options -> list Invocation -> CbRun)
    (importPath : string) (args : ProcessImportArguments) (heap : Heap)
    : CbRun :=
  match args with
  | TwoArguments _ => Some (Throw destructureUndefined, heap)
  | ThreeArguments callback accumulator settings =>
      match resolved (resolveImportingPath env (currentDir settings)
                        importPath (s_cwd settings)) with
      | None =>
          Some (Normal (SuccessTrue (s_visitedSet settings, accumulator)), heap)
      | Some resolvedPath =>
          self (VString resolvedPath)
               (ConfigObject (CallbackFunction callback) accumulator)
               (makeFindAllImportsOptions (s_cwd settings)
                  (s_visitedSet settings) (s_depth settings)
                  (s_maxDepth settings))
               (h_trace heap)
      end
  end.

Fixpoint scanBodySync
    (self : JSValue -> CallbackConfigValue -> Options -> list Invocation -> CbRun)
    (nodes : list Node) (callback : Callback) (accumulator : A)
    (settings : Settings) (heap : Heap) : CbRun :=
  match nodes with
  | [] => Some (Normal (SuccessTrue (s_visitedSet settings, accumulator)), heap)
  | node :: rest =>
      guardedCb (nodeIsImportDeclaration node)
        (processImportWithCallbackSync self (node_source_value node)
           (ThreeArguments callback accumulator settings) heap)
        (s_visitedSet settings) accumulator heap (fun vs1 acc1 h1 =>
      guardedCb (nodeIsImportExpression node)
        (processImportWithCallbackSync self (node_source_value node)
           (TwoArguments (withVisitedSet settings vs1)) h1)
        vs1 acc1 h1 (fun vs2 acc2 h2 =>
      guardedCb (nodeIsRequireCall node)
        (processImportWithCallbackSync self (node_first_argument_value node)
           (ThreeArguments callback acc2 (withVisitedSet settings vs2)) h2)
        vs2 acc2 h2 (fun vs3 acc3 h3 =>
      scanBodySync self rest callback acc3 (withVisitedSet settings vs3) h3)))
  end.

Fixpoint findAllImportsWithCallbackSync (fuel : nat) (filePath : JSValue)
    (callbackConfig : CallbackConfigValue) (options : Options)
    (trace : list Invocation) {struct fuel} : CbRun :=
  match fuel with
  | O => None
  | S fuel' =>
      let options := withDefaults env options in
      let heap := {| h_visitedSet := visitedSet options;
                     h_callbackConfig := callbackConfig;
                     h_trace := trace |} in
      match validateFilePathAndOptions env filePath options with
      | SuccessFalse errors => Some (Normal (SuccessFalse errors), heap)
      | SuccessTrue v =>
          match validateCallbackConfig callbackConfig with
          | SuccessFalse errors => Some (Normal (SuccessFalse errors), heap)
          | SuccessTrue (callback, accumulator) =>
              if visitedSetHasPreviousVisit (v_visitedSet v) (v_filePath v) then
                Some (Normal (SuccessTrue (v_visitedSet v, accumulator)), heap)
              else
                let visitedSet :=
                  updateVisitedSet (v_visitedSet v) (v_filePath v) in
                let r := callback (v_filePath v) (v_sourceCode v) accumulator in
                let heap :=
                  {| h_visitedSet := setOf visitedSet;
                     h_callbackConfig :=
                       ConfigObject (CallbackFunction callback) (acc_after r);
                     h_trace :=
                       trace ++ [ {| inv_filePath := v_filePath v;
                                     inv_visitedSet := visitedSet;
                                     inv_accumulator := accumulator;
                                     inv_thrown := thrown r |} ] |} in
                match thrown r with
                | Some e => Some (caught (v_filePath v) e, heap)
                | None =>
                    scanBodySync (findAllImportsWithCallbackSync fuel')
                      (body (v_program v)) callback (acc_after r)
                      (makeProcessImportSettings env (v_filePath v) (v_cwd v)
                         visitedSet (v_depth v) (v_maxDepth v))
                      heap
                end
          end
      end
  end.

(** *** [findAllImportsWithCallbackAsync]

    Every [await] of the source is in sequence with what follows it, so
    the asynchronous variant is the same state passing; its completion
    is the settlement of the promise it returns. *)

Definition processImportWithCallbackAsync
    (self : JSValue -> CallbackConfigValue -> Options -> list Invocation -> CbRun)
    (importPath : string) (args : ProcessImportArguments) (heap : Heap)
    : CbRun :=
  match args with
  | TwoArguments _ => Some (Throw destructureUndefined, heap)
  | ThreeArguments callback accumulator settings =>
      match resolved (resolveImportingPath env (currentDir settings)
                        importPath (s_cwd settings)) with
      | None =>
          Some (Normal (SuccessTrue (s_visitedSet settings, accumulator)), heap)
      | Some resolvedPath =>
          self (VString resolvedPath)
               (ConfigObject (CallbackFunction callback) accumulator)
               (makeFindAllImportsOptions (s_cwd settings)
                  (s_visitedSet settings) (s_depth settings)
                  (s_maxDepth settings))
               (h_trace heap)
      end
  end.

Fixpoint scanBodyAsync
    (self : JSValue -> CallbackConfigValue -> Options -> list Invocation -> CbRun)
    (nodes : list Node) (callback : Callback) (accumulator : A)
    (settings : Settings) (heap : Heap) : CbRun :=
  match nodes with
  | [] => Some (Normal (SuccessTrue (s_visitedSet settings, accumulator)), heap)
  | node :: rest =>
      guardedCb (nodeIsImportDeclaration node)
        (processImportWithCallbackAsync self (node_source_value node)
           (ThreeArguments callback accumulator settings) heap)
        (s_visitedSet settings) accumulator heap (fun vs1 acc1 h1 =>
      guardedCb (nodeIsImportExpression node)
        (processImportWithCallbackAsync self (node_source_value node)
           (TwoArguments (withVisitedSet settings vs1)) h1)
        vs1 acc1 h1 (fun vs2 acc2 h2 =>
      guardedCb (nodeIsRequireCall node)
        (processImportWithCallbackAsync self (node_first_argument_value node)
           (ThreeArguments callback acc2 (withVisitedSet settings vs2)) h2)
        vs2 acc2 h2 (fun vs3 acc3 h3 =>
      scanBodyAsync self rest callback acc3 (withVisitedSet settings vs3) h3)))
  end.

Fixpoint findAllImportsWithCallbackAsync (fuel : nat) (filePath : JSValue)
    (callbackConfig : CallbackConfigValue) (options : Options)
    (trace : list Invocation) {struct fuel} : CbRun :=
  match fuel with
  | O => None
  | S fuel' =>
      let options := withDefaults env options in
      let heap := {| h_visitedSet := visitedSet options;
                     h_callbackConfig := callbackConfig;
                     h_trace := trace |} in
      match validateFilePathAndOptions env filePath options with
      | SuccessFalse errors => Some (Normal (SuccessFalse errors), heap)
      | SuccessTrue v =>
          match validateCallbackConfig callbackConfig with
          | SuccessFalse errors => Some (Normal (SuccessFalse errors), heap)
          | SuccessTrue (callback, accumulator) =>
              if visitedSetHasPreviousVisit (v_visitedSet v) (v_filePath v) then
                Some (Normal (SuccessTrue (v_visitedSet v, accumulator)), heap)
              else
                let visitedSet :=
                  updateVisitedSet (v_visitedSet v) (v_filePath v) in
                let r := callback (v_filePath v) (v_sourceCode v) accumulator in
                let heap :=
                  {| h_visitedSet := setOf visitedSet;
                     h_callbackConfig :=
                       ConfigObject (CallbackFunction callback) (acc_after r);
                     h_trace :=
                       trace ++ [ {| inv_filePath := v_filePath v;
                                     inv_visitedSet := visitedSet;
                                     inv_accumulator := accumulator;
                                     inv_thrown := thrown r |} ] |} in
                match thrown r with
                | Some e => Some (caught (v_filePath v) e, heap)
                | None =>
                    scanBodyAsync (findAllImportsWithCallbackAsync fuel')
                      (body (v_program v)) callback (acc_after r)
                      (makeProcessImportSettings env (v_filePath v) (v_cwd v)
                         visitedSet (v_depth v) (v_maxDepth v))
                      heap
                end
          end
      end
  end.

(** An invocation finds its own file in the visited set, inserted last. *)
Definition wellPlaced (i : Invocation) : Prop :=
  exists before,
    inv_visitedSet i = (before ++ [inv_filePath i])%list /\
    ~ In (inv_filePath i) before.

(** An invocation that threw nothing. *)
Definition quiet (i : Invocation) : Prop := inv_thrown i = None.

(** What a run adds to the trace: invocations that are well placed and,
    either all quiet, or quiet up to a last one that threw, in which case
    the run ends as the [catch] block of that invocation does and the
    visited set is left as that invocation found it. *)
Definition TraceOf (trace : list Invocation)
    (completion : Completion FindAllImportsResultsWithAccumulator)
    (heap : Heap) : Prop :=
  exists new,
    h_trace heap = (trace ++ new)%list /\
    Forall wellPlaced new /\
    (Forall quiet new \/
     exists pre i e,
       new = (pre ++ [i])%list /\ Forall quiet pre /\ inv_thrown i = Some e /\
       completion = caught (inv_filePath i) e /\
       h_visitedSet heap = setOf (inv_visitedSet i)).

End Callbacks.

(** ** The reference graph

    What the traversal of a file hands to the path resolver, and where
    the resolver sends it. *)

(** Options whose four fields have their types. *)
Definition typedOptions (c : string) (vs : list string) (d m : Z) : Options :=
  {| cwd := VString c;
     visitedSet := setOf vs;
     depth := VNumber d;
     maxDepth := VNumber m |}.

(** The import path the scan reads off a node, if one of its three tests
    holds. *)
Definition importPathOf (node : Node) : option string :=
  if nodeIsImportDeclaration node then Some (node_source_value node)
  else if nodeIsImportExpression node then Some (node_source_value node)
  else if nodeIsRequireCall node then Some (node_first_argument_value node)
  else None.

(** The file a node makes the scan recurse into, if any. *)
Definition childOf (env : Env) (dir c : string) (node : Node) : option string :=
  match importPathOf node with
  | Some importPath => resolved (resolveImportingPath env dir importPath c)
  | None => None
  end.

Fixpoint childrenOf (env : Env) (dir c : string) (nodes : list Node)
    : list string :=
  match nodes with
  | [] => []
  | node :: rest =>
      match childOf env dir c node with
      | Some p => p :: childrenOf env dir c rest
      | None => childrenOf env dir c rest
      end
  end.

(** The body of a file that exists and parses. *)
Definition parsedBody (env : Env) (f : string) : option (list Node) :=
  if fs_existsSync env f then
    match getSourceCodeFromFilePath env f with
    | Some sourceCode =>
        match ast sourceCode with
        | Some program => Some (body program)
        | None => None
        end
    | None => None
    end
  else None.

(** The files [f] refers to, in source order. *)
Definition references (env : Env) (c f : string) : list string :=
  match parsedBody env f with
  | Some nodes => childrenOf env (path_dirname env f) c nodes
  | None => []
  end.

(** [RefPath env c f n g]: a chain of [n] references leads from [f] to [g]. *)
Inductive RefPath (env : Env) (c : string) (f : string)
    : nat -> string -> Prop :=
| RefPath_here : RefPath env c f 0 f
| RefPath_step n g h :
    RefPath env c f n g -> In h (references env c g) ->
    RefPath env c f (S n) h.

Definition Reaches (env : Env) (c f g : string) : Prop :=
  exists n, RefPath env c f n g.


(** [Trail env c f l g]: a chain of references leads from [f] to [g]
    through the files of [l], in that order and none of them twice, [f]
    first and [g] left out.  The file [g] may be one of [l]: the chain
    then closes a cycle, and goes no further. *)
Inductive Trail (env : Env) (c : string) (f : string)
    : list string -> string -> Prop :=
| Trail_here : Trail env c f [] f
| Trail_step l g h :
    Trail env c f l g -> ~ In g l -> In h (references env c g) ->
    Trail env c f (l ++ [g]) h.

(** [EnclosesFailure env c m fuel f d vs errors store]: the call on [f]
    at depth [d] with visited set [vs] is a call that fails with [errors]
    leaving [store], or it scans [f], every child before some node
    succeeds, and the child of that node is such a call in turn. *)
Inductive EnclosesFailure (env : Env) (c : string) (m : Z)
    : nat -> string -> Z -> list string -> list ErrorObject -> JSValue -> Prop :=
| Encloses_origin fuel f d vs errors store :
    findAllImports env fuel (VString f) (typedOptions c vs d m)
      = Some (SuccessFalse errors, store) ->
    EnclosesFailure env c m fuel f d vs errors store
| Encloses_frame fuel f d vs v pre node post vs1 p errors store :
    validateFilePathAndOptions env (VString f) (typedOptions c vs d m)
      = SuccessTrue v ->
    visitedSetHasPreviousVisit vs f = false ->
    body (v_program v) = (pre ++ node :: post)%list ->
    scanBody env (findAllImports env fuel) pre
      (makeProcessImportSettings env f c (updateVisitedSet vs f) d m)
      = Some (SuccessTrue vs1, setOf vs1) ->
    childOf env (path_dirname env f) c node = Some p ->
    EnclosesFailure env c m fuel p (d + 1) vs1 errors store ->
    EnclosesFailure env c m (S fuel) f d vs errors store.

(** The traversal of typed arguments as a relation, without fuel:
    [Visit env c m f d vs r vs'] when the call on [f] at depth [d] with
    visited set [vs] returns [r] and leaves the visited set [vs'];
    [Scan] is the loop over the files a body refers to. *)
Inductive Visit (env : Env) (c : string) (m : Z)
    : string -> Z -> list string -> FindAllImportsResults -> list string -> Prop :=
| Visit_invalid f d vs errors :
    validateFilePathAndOptions env (VString f) (typedOptions c vs d m)
      = SuccessFalse errors ->
    Visit env c m f d vs (SuccessFalse errors) vs
| Visit_seen f d vs v :
    validateFilePathAndOptions env (VString f) (typedOptions c vs d m)
      = SuccessTrue v ->
    In f vs ->
    Visit env c m f d vs (SuccessTrue vs) vs
| Visit_scan f d vs v r vs' :
    validateFilePathAndOptions env (VString f) (typedOptions c vs d m)
      = SuccessTrue v ->
    ~ In f vs ->
    Scan env c m d (references env c f) (vs ++ [f])%list r vs' ->
    Visit env c m f d vs r vs'
with Scan (env : Env) (c : string) (m : Z)
    : Z -> list string -> list string -> FindAllImportsResults -> list string -> Prop :=
| Scan_done d vs : Scan env c m d [] vs (SuccessTrue vs) vs
| Scan_fail d p rest vs errors vs1 :
    Visit env c m p (d + 1) vs (SuccessFalse errors) vs1 ->
    Scan env c m d (p :: rest) vs (SuccessFalse errors) vs1
| Scan_next d p rest vs x vs1 r vs' :
    Visit env c m p (d + 1) vs (SuccessTrue x) vs1 ->
    Scan env c m d rest vs1 r vs' ->
    Scan env c m d (p :: rest) vs r vs'.

Scheme Visit_Scan_ind := Minimality for Visit Sort Prop
  with Scan_Visit_ind := Minimality for Scan Sort Prop.
Combined Scheme Visit_Scan_mutind from Visit_Scan_ind, Scan_Visit_ind.

(** The failures of [validateFilePathAndOptions] on [depth > maxDepth],
    on a file that is not there and on a file that does not parse. *)
Definition depthExceededErrors (m : Z) (f : string) : list ErrorObject :=
  [ {| type := typeError;
       message := "ERROR. Max depth " ++ numberToString m ++
                  " reached at " ++ f ++ "." |} ].

Definition depthExceeded {T} (m : Z) (f : string) : Outcome T :=
  SuccessFalse (depthExceededErrors m f).

Definition fileNotFoundErrors (f : string) : list ErrorObject :=
  [ {| type := typeError;
       message := "ERROR. File not found at " ++ f ++ "." |} ].

Definition fileNotFound {T} (f : string) : Outcome T :=
  SuccessFalse (fileNotFoundErrors f).

Definition parseFailedErrors (f : string) : list ErrorObject :=
  [ {| type := typeError;
       message := "ERROR. Failed to parse AST for " ++ f ++ " somehow." |} ].

Definition parseFailed {T} (f : string) : Outcome T :=
  SuccessFalse (parseFailedErrors f).

(** Every run of [self] on typed arguments is a [Visit]. *)
Definition RunIsVisit (env : Env) (c : string) (m : Z)
    (self : JSValue -> Options -> Run) : Prop :=
  forall f d vs r store,
    self (VString f) (typedOptions c vs d m) = Some (r, store) ->
    exists vs', store = setOf vs' /\ Visit env c m f d vs r vs'.

(** Every run of [self] on typed arguments adds to the trace as
    [TraceOf] says. *)
Definition RunHasTrace (A : Type)
    (self : JSValue -> CallbackConfigValue A -> Options ->
            list (Invocation A) -> CbRun A) : Prop :=
  forall f cb acc c vs d m trace completion heap,
    self (VString f) (ConfigObject A (CallbackFunction A cb) acc)
      (typedOptions c vs d m) trace
      = Some (completion, heap) ->
    TraceOf A trace completion heap.


(** ** Projects to run the traversal on *)

(** [path.dirname] on absolute POSIX paths. *)
Fixpoint dirnameAux (s : string) : option string :=
  match s with
  | EmptyString => None
  | String ch rest =>
      match dirnameAux rest with
      | Some d => Some (String ch d)
      | None => if (ch =? "/")%char then Some EmptyString else None
      end
  end.

Definition posix_dirname (s : string) : string :=
  match dirnameAux s with
  | Some EmptyString => "/"
  | Some d => d
  | None => "."
  end.

(** A resolver for the projects below: [./name] is a file of the current
    directory, an absolute path is itself, anything else (a package name)
    does not resolve. *)
Definition simpleResolver (dir importPath c : string) : option string :=
  if prefix "./" importPath then
    Some (dir ++ substring 1 (String.length importPath - 1) importPath)
  else if prefix "/" importPath then Some importPath
  else None.

Definition parsed (nodes : list Node) : SourceCode :=
  {| ast := Some {| body := nodes |} |}.

Fixpoint lookupFile (files : list (string * SourceCode)) (p : string)
    : option SourceCode :=
  match files with
  | [] => None
  | (name, sc) :: rest => if name =? p then Some sc else lookupFile rest p
  end.

(** A project: the listed files exist, with the listed parse results. *)
Definition projectEnv (files : list (string * SourceCode)) : Env :=
  {| process_cwd := "/p";
     fs_existsSync := fun p =>
       match lookupFile files p with Some _ => true | None => false end;
     getSourceCodeFromFilePath := lookupFile files;
     path_dirname := posix_dirname;
     resolveImportingPath := simpleResolver |}.

(** [a] refers to [b] and [c]; [b] refers to [c]. *)
Definition diamondEnv : Env :=
  projectEnv
    [ ("/p/a.js", parsed [ImportDeclaration "./b.js"; ImportDeclaration "./c.js"]);
      ("/p/b.js", parsed [ImportDeclaration "./c.js"]);
      ("/p/c.js", parsed [OtherStatement VariableDeclaration]) ].

(** [x] refers to [y], which does not exist, and then to [z]. *)
Definition missingEnv : Env :=
  projectEnv
    [ ("/p/x.js", parsed [ImportDeclaration "./y.js"; ImportDeclaration "./z.js"]);
      ("/p/z.js", parsed []) ].

(** [a] holds the statement [import('./b.js');]. *)
Definition dynamicEnv : Env :=
  projectEnv
    [ ("/p/a.js",
       parsed [ExpressionStatement (ImportExpression (Literal "./b.js"))]);
      ("/p/b.js", parsed []) ].

(** [a] and [b] refer to each other. *)
Definition cycleEnv : Env :=
  projectEnv
    [ ("/p/a.js", parsed [ImportDeclaration "./b.js"]);
      ("/p/b.js", parsed [ImportDeclaration "./a.js"]) ].

(** [a] was visited and has since been deleted; [b] was visited and no
    longer parses; [c] is there. *)
Definition staleEnv : Env :=
  projectEnv
    [ ("/p/b.js", {| ast := None |});
      ("/p/c.js", parsed []) ].

(** The files of a chain: [/f.js], [/d/f.js], [/d/d/f.js], ... *)
Fixpoint chainName (k : nat) : string :=
  match k with
  | O => "/f.js"
  | S k' => "/d" ++ chainName k'
  end.

Definition chainNames (n : nat) : list string := map chainName (seq 0 n).

Definition inList (p : string) (l : list string) : bool :=
  existsb (String.eqb p) l.

(** The number of files of [l] outside the visited set [vs]. *)
Definition unvisitedIn (l vs : list string) : nat :=
  List.length (filter (fun u => negb (inList u vs)) l).

(** A chain of [L] files, each importing the next by its absolute path;
    the last one imports nothing, or the first one when [ring] is set. *)
Definition chainEnv (L : nat) (ring : bool) : Env :=
  {| process_cwd := "/";
     fs_existsSync := fun p => inList p (chainNames L);
     getSourceCodeFromFilePath := fun p =>
       Some (parsed
         (if inList p (chainNames (L - 1)) then [ImportDeclaration ("/d" ++ p)]
          else if ring then [ImportDeclaration (chainName 0)]
          else []));
     path_dirname := posix_dirname;
     resolveImportingPath := simpleResolver |}.

(** Options that set [maxDepth] only. *)
Definition maxDepthOnly (m : Z) : Options :=
  {| cwd := VUndefined; visitedSet := VUndefined;
     depth := VUndefined; maxDepth := VNumber m |}.


(** A callback that records the files it is given, one that throws an
    [Error] on the files of a list, and one that throws a Symbol on
    them. *)
Definition recordFile : Callback (list string) :=
  fun filePath _ acc =>
    {| acc_after := (acc ++ [filePath])%list; thrown := None |}.


Definition throwSymbolOn (bad : list string) : Callback (list string) :=
  fun filePath _ acc =>
    {| acc_after := (acc ++ [filePath])%list;
       thrown := if inList filePath bad then Some ThrownSymbol else None |}.


(** ** Reference definitions for the further properties *)

(** [ReachesOutside env c vs f g]: a chain of references leads from [f]
    to [g] through files that are all outside [vs], [f] and [g]
    included. *)
Inductive ReachesOutside (env : Env) (c : string) (vs : list string)
    : string -> string -> Prop :=
| ReachesOutside_here f : ~ In f vs -> ReachesOutside env c vs f f
| ReachesOutside_step f g h :
    ReachesOutside env c vs f g -> In h (references env c g) -> ~ In h vs ->
    ReachesOutside env c vs f h.

(** Whether a node makes the scan recurse. *)
Definition resolves (env : Env) (dir c : string) (node : Node) : bool :=
  match childOf env dir c node with Some _ => true | None => false end.

Section Replay.

Variable env : Env.
Variable A : Type.
Variable cb : Callback A.

(** The callback on a file, with the source code the validation found. *)
Definition invoke (f : string) (acc : A) : CallbackReturn A :=
  match getSourceCodeFromFilePath env f with
  | Some sourceCode => cb f sourceCode acc
  | None => {| acc_after := acc; thrown := None |}
  end.

(** The accumulator after the callback has run on the files of a list,
    in order. *)
Definition replay (acc : A) (files : list string) : A :=
  fold_left (fun a f => acc_after A (invoke f a)) files acc.

(** The invocations of the callback on the files of a list, in order,
    from the visited set [vs] and the accumulator [acc]: each one sees
    the set with its own file last and the accumulator the previous one
    left. *)
Fixpoint invocations (vs : list string) (acc : A) (files : list string)
    : list (Invocation A) :=
  match files with
  | [] => []
  | f :: rest =>
      {| inv_filePath := f;
         inv_visitedSet := (vs ++ [f])%list;
         inv_accumulator := acc;
         inv_thrown := thrown A (invoke f acc) |}
      :: invocations (vs ++ [f])%list (acc_after A (invoke f acc)) rest
  end.

End Replay.

(** [Threads env A cb vs acc trace completion heap]: the run went
    through the files of a list [files], in order: it added them to the
    visited set [vs], it invoked the callback on each of them, threading
    the accumulator from [acc], and a success returns that set and that
    accumulator. *)
Definition Threads (env : Env) (A : Type) (cb : Callback A)
    (vs : list string) (acc : A) (trace : list (Invocation A))
    (completion : Completion (FindAllImportsResultsWithAccumulator A))
    (heap : Heap A) : Prop :=
  exists files,
    h_trace A heap = (trace ++ invocations env A cb vs acc files)%list /\
    h_visitedSet A heap = setOf (vs ++ files) /\
    h_callbackConfig A heap
      = ConfigObject A (CallbackFunction A cb) (replay env A cb acc files) /\
    forall vs' acc',
      completion = Normal (SuccessTrue (vs', acc')) ->
      vs' = (vs ++ files)%list /\ acc' = replay env A cb acc files.

(** Every run of [self] on typed arguments threads the callback. *)
Definition RunThreads (env : Env) (A : Type) (cb : Callback A)
    (c : string) (m : Z)
    (self : JSValue -> CallbackConfigValue A -> Options ->
            list (Invocation A) -> CbRun A) : Prop :=
  forall f acc vs d trace completion heap,
    self (VString f) (ConfigObject A (CallbackFunction A cb) acc)
      (typedOptions c vs d m) trace
      = Some (completion, heap) ->
    Threads env A cb vs acc trace completion heap.

(** * Properties *)

(** ** Sets of strings *)

Lemma forallb_isString_map (l : list string) :
  forallb isString (map PString l) = true.
Proof. induction l; simpl; auto. Qed.

Lemma stringsOf_map (l : list string) : stringsOf (map PString l) = l.
Proof. induction l; simpl; congruence. Qed.

Lemma safeParse_setOf (l : list string) :
  VisitedSetSchema_safeParse (setOf l) = ParseData l.
Proof.
  unfold VisitedSetSchema_safeParse, setOf.
  now rewrite forallb_isString_map, stringsOf_map.
Qed.

Lemma has_In (vs : list string) (f : string) :
  visitedSetHasPreviousVisit vs f = true <-> In f vs.
Proof.
  unfold visitedSetHasPreviousVisit. rewrite existsb_exists. split.
  - intros (x & Hx & E). apply String.eqb_eq in E. now subst.
  - intros H. exists f. split; auto. apply String.eqb_refl.
Qed.

Lemma has_not_In (vs : list string) (f : string) :
  visitedSetHasPreviousVisit vs f = false <-> ~ In f vs.
Proof.
  rewrite <- has_In. split.
  - intros H H'. congruence.
  - intros H. destruct (visitedSetHasPreviousVisit vs f); auto.
    exfalso. now apply H.
Qed.

Lemma update_fresh (vs : list string) (f : string) :
  visitedSetHasPreviousVisit vs f = false ->
  updateVisitedSet vs f = (vs ++ [f])%list.
Proof.
  unfold updateVisitedSet, visitedSetHasPreviousVisit. now intros ->.
Qed.

Lemma setOf_inj (l l' : list string) : setOf l = setOf l' -> l = l'.
Proof.
  unfold setOf. intros H. injection H as H.
  rewrite <- (stringsOf_map l), <- (stringsOf_map l'). now rewrite H.
Qed.

(** ** Validation of typed arguments *)

Section Validation.

Variable env : Env.

Lemma withDefaults_typed c vs d m :
  withDefaults env (typedOptions c vs d m) = typedOptions c vs d m.
Proof. reflexivity. Qed.

(** On arguments that have their types, what is left of the validation
    is the depth test, the existence test and the parse. *)
Lemma validate_typed f c vs d m :
  validateFilePathAndOptions env (VString f) (typedOptions c vs d m) =
  if (d >? m)%Z then depthExceeded m f
  else if negb (fs_existsSync env f) then fileNotFound f
  else match getSourceCodeFromFilePath env f with
       | Some sourceCode =>
           match ast sourceCode with
           | Some program =>
               SuccessTrue
                 {| v_filePath := f; v_cwd := c; v_visitedSet := vs;
                    v_depth := d; v_maxDepth := m;
                    v_sourceCode := sourceCode; v_program := program |}
           | None => parseFailed f
           end
       | None => parseFailed f
       end.
Proof.
  unfold validateFilePathAndOptions, typedOptions; cbn [cwd visitedSet depth maxDepth].
  change (VSet (map PString vs)) with (setOf vs).
  unfold setOf at 1. rewrite safeParse_setOf. reflexivity.
Qed.

Lemma validate_typed_success f c vs d m v :
  validateFilePathAndOptions env (VString f) (typedOptions c vs d m)
    = SuccessTrue v ->
  (d <= m)%Z /\ parsedBody env f = Some (body (v_program v)) /\
  v_filePath v = f /\ v_cwd v = c /\ v_visitedSet v = vs /\
  v_depth v = d /\ v_maxDepth v = m.
Proof.
  rewrite validate_typed. unfold parsedBody.
  destruct (d >? m)%Z eqn:Hd; [discriminate|].
  destruct (fs_existsSync env f); [|discriminate]. cbn [negb].
  destruct (getSourceCodeFromFilePath env f) as [sc|]; [|discriminate].
  destruct (ast sc) as [pr|]; [|discriminate].
  intros H. injection H as <-. cbn. repeat split; auto. lia.
Qed.

Lemma validate_typed_of_body f c vs d m nodes :
  (d <= m)%Z -> parsedBody env f = Some nodes ->
  exists v,
    validateFilePathAndOptions env (VString f) (typedOptions c vs d m)
      = SuccessTrue v /\
    body (v_program v) = nodes /\ v_filePath v = f /\ v_cwd v = c /\
    v_visitedSet v = vs /\ v_depth v = d /\ v_maxDepth v = m.
Proof.
  intros Hd Hb. rewrite validate_typed. unfold parsedBody in Hb.
  replace (d >? m)%Z with false by lia.
  destruct (fs_existsSync env f); [|discriminate]. cbn [negb].
  destruct (getSourceCodeFromFilePath env f) as [sc|]; [|discriminate].
  destruct (ast sc) as [pr|]; [|discriminate].
  injection Hb as <-. eexists. split; [reflexivity|]. cbn. repeat split.
Qed.

End Validation.

(** ** The scan, one node at a time *)

Section ScanSteps.

Variable env : Env.

Lemma withVisitedSet_settings f c vs d m vs' :
  withVisitedSet (makeProcessImportSettings env f c vs d m) vs'
  = makeProcessImportSettings env f c vs' d m.
Proof. reflexivity. Qed.

(** A node makes the scan call [self] on its child, when it has one, and
    is passed over otherwise. *)
Lemma scanBody_cons self f c vs d m node rest :
  scanBody env self (node :: rest) (makeProcessImportSettings env f c vs d m) =
  match childOf env (path_dirname env f) c node with
  | None => scanBody env self rest (makeProcessImportSettings env f c vs d m)
  | Some p =>
      match self (VString p) (typedOptions c vs (d + 1) m) with
      | None => None
      | Some (SuccessFalse errors, store) => Some (SuccessFalse errors, store)
      | Some (SuccessTrue vs', _) =>
          scanBody env self rest (makeProcessImportSettings env f c vs' d m)
      end
  end.
Proof.
  unfold childOf, importPathOf.
  destruct node as [src | e | src | k].
  - cbn -[resolved]. unfold processImport; cbn -[resolved].
    destruct (resolved _) as [p|]; [|reflexivity].
    change (makeFindAllImportsOptions c vs d m) with (typedOptions c vs (d + 1) m).
    destruct (self _ _) as [[[vs'|errors] store]|]; reflexivity.
  - change (nodeIsImportDeclaration (ExpressionStatement e)) with false.
    change (nodeIsImportExpression (ExpressionStatement e)) with false.
    cbn [scanBody guarded].
    destruct (nodeIsRequireCall (ExpressionStatement e)); [|reflexivity].
    unfold processImport; cbn -[resolved node_first_argument_value].
    destruct (resolved _) as [p|]; [|reflexivity].
    change (makeFindAllImportsOptions c vs d m) with (typedOptions c vs (d + 1) m).
    destruct (self _ _) as [[[vs'|errors] store]|]; reflexivity.
  - cbn -[resolved]. unfold processImport; cbn -[resolved].
    destruct (resolved _) as [p|]; [|reflexivity].
    change (makeFindAllImportsOptions c vs d m) with (typedOptions c vs (d + 1) m).
    destruct (self _ _) as [[[vs'|errors] store]|]; reflexivity.
  - destruct k; reflexivity.
Qed.

Lemma scanBody_nil self f c vs d m :
  scanBody env self [] (makeProcessImportSettings env f c vs d m)
  = Some (SuccessTrue vs, setOf vs).
Proof. reflexivity. Qed.

(** The scan of [pre ++ rest] is the scan of [pre] and then, when every
    child of [pre] succeeded, the scan of [rest]. *)
Lemma scanBody_app self f c d m pre rest : forall vs,
  scanBody env self (pre ++ rest) (makeProcessImportSettings env f c vs d m) =
  match scanBody env self pre (makeProcessImportSettings env f c vs d m) with
  | None => None
  | Some (SuccessFalse errors, store) => Some (SuccessFalse errors, store)
  | Some (SuccessTrue vs1, _) =>
      scanBody env self rest (makeProcessImportSettings env f c vs1 d m)
  end.
Proof.
  induction pre as [|node pre IH]; intros vs.
  - reflexivity.
  - rewrite <- app_comm_cons, !scanBody_cons.
    destruct (childOf _ _ _ node) as [p|]; [|apply IH].
    destruct (self _ _) as [[[vs'|errors] store]|]; auto.
Qed.

(** One unfolding of [findAllImports] on typed arguments. *)
Lemma findAllImports_typed fuel f c vs d m :
  findAllImports env (S fuel) (VString f) (typedOptions c vs d m) =
  match validateFilePathAndOptions env (VString f) (typedOptions c vs d m) with
  | SuccessFalse errors => Some (SuccessFalse errors, setOf vs)
  | SuccessTrue v =>
      if visitedSetHasPreviousVisit vs f then Some (SuccessTrue vs, setOf vs)
      else scanBody env (findAllImports env fuel) (body (v_program v))
             (makeProcessImportSettings env f c (updateVisitedSet vs f) d m)
  end.
Proof.
  cbn [findAllImports]. rewrite withDefaults_typed.
  destruct (validateFilePathAndOptions _ _ _) as [v|errors] eqn:E; [|reflexivity].
  apply validate_typed_success in E as (_ & _ & -> & -> & -> & -> & ->).
  reflexivity.
Qed.

End ScanSteps.

(** ** Every run is a [Visit] *)

Section RunsAreVisits.

Variable env : Env.
Variable c : string.
Variable m : Z.

Lemma scanBody_Scan self f d :
  RunIsVisit env c m self ->
  forall nodes vs r store,
    scanBody env self nodes (makeProcessImportSettings env f c vs d m)
      = Some (r, store) ->
    exists vs', store = setOf vs' /\
      Scan env c m d (childrenOf env (path_dirname env f) c nodes) vs r vs'.
Proof.
  intros Hself. induction nodes as [|node rest IH]; intros vs r store.
  - rewrite scanBody_nil. intros H. injection H as <- <-.
    exists vs. split; [reflexivity|constructor].
  - rewrite scanBody_cons. cbn [childrenOf].
    destruct (childOf _ _ _ node) as [p|]; [|apply IH].
    destruct (self _ _) as [[[vs1|errors] store1]|] eqn:E; [| |discriminate].
    + intros H. apply Hself in E as (vs1' & -> & HV).
      assert (vs1 = vs1').
      { clear -HV. inversion HV; subst; auto.
        match goal with H : Scan _ _ _ _ _ _ _ _ |- _ => revert H end.
        generalize (references env c p), (vs ++ [p])%list.
        intros l. induction l as [|q l IHl]; intros w HS;
          inversion HS; subst; eauto. }
      subst vs1'. apply IH in H as (vs' & -> & HS).
      exists vs'. split; [reflexivity|]. eapply Scan_next; eauto.
    + intros H. injection H as <- <-.
      apply Hself in E as (vs1' & -> & HV).
      exists vs1'. split; [reflexivity|]. now apply Scan_fail.
Qed.

Lemma findAllImports_Visit fuel : RunIsVisit env c m (findAllImports env fuel).
Proof.
  induction fuel as [|fuel IH]; intros f d vs r store.
  - discriminate.
  - rewrite findAllImports_typed.
    destruct (validateFilePathAndOptions _ _ _) as [v|errors] eqn:E.
    + destruct (visitedSetHasPreviousVisit vs f) eqn:Hseen.
      * intros H. injection H as <- <-. exists vs. split; [reflexivity|].
        eapply Visit_seen; eauto. now apply has_In.
      * rewrite update_fresh by assumption. intros H.
        apply (scanBody_Scan _ _ _ IH) in H as (vs' & -> & HS).
        exists vs'. split; [reflexivity|].
        eapply Visit_scan; eauto. { now apply has_not_In. }
        unfold references.
        apply validate_typed_success in E as (_ & -> & _). exact HS.
    + intros H. injection H as <- <-. exists vs. split; [reflexivity|].
      now apply Visit_invalid.
Qed.

End RunsAreVisits.

(** ** What a [Visit] does to the visited set *)

Section VisitFacts.

Variable env : Env.
Variable c : string.
Variable m : Z.

(** A successful call returns the visited set it leaves. *)
Lemma Visit_payload :
  (forall f d vs r vs', Visit env c m f d vs r vs' ->
     forall x, r = SuccessTrue x -> x = vs') /\
  (forall d l vs r vs', Scan env c m d l vs r vs' ->
     forall x, r = SuccessTrue x -> x = vs').
Proof.
  apply Visit_Scan_mutind; intros; try discriminate; auto; congruence.
Qed.

(** The visited set only grows, at its end. *)
Lemma Visit_extends :
  (forall f d vs r vs', Visit env c m f d vs r vs' ->
     exists new, vs' = (vs ++ new)%list) /\
  (forall d l vs r vs', Scan env c m d l vs r vs' ->
     exists new, vs' = (vs ++ new)%list).
Proof.
  apply Visit_Scan_mutind; intros.
  - exists []. now rewrite app_nil_r.
  - exists []. now rewrite app_nil_r.
  - destruct H2 as (new & ->). exists (f :: new). now rewrite <- app_assoc.
  - exists []. now rewrite app_nil_r.
  - assumption.
  - destruct H0 as (n1 & ->), H2 as (n2 & ->).
    exists (n1 ++ n2)%list. now rewrite app_assoc.
Qed.

(** It never holds a file twice. *)
Lemma Visit_NoDup :
  (forall f d vs r vs', Visit env c m f d vs r vs' -> NoDup vs -> NoDup vs') /\
  (forall d l vs r vs', Scan env c m d l vs r vs' -> NoDup vs -> NoDup vs').
Proof.
  apply Visit_Scan_mutind; intros; auto.
  apply H2. apply NoDup_app; [assumption|repeat constructor; auto|].
  intros x Hx [<-|[]]. contradiction.
Qed.

(** Every file a call adds is one that the file it is called on reaches. *)
Lemma Visit_sound :
  (forall f d vs r vs', Visit env c m f d vs r vs' ->
     forall g, In g vs' -> In g vs \/ Reaches env c f g) /\
  (forall d l vs r vs', Scan env c m d l vs r vs' ->
     forall g, In g vs' -> In g vs \/ exists p, In p l /\ Reaches env c p g).
Proof.
  apply Visit_Scan_mutind; intros; auto.
  - destruct (H2 g H3) as [Hin|(p & Hp & n & Hn)].
    + apply in_app_or in Hin as [Hin|[<-|[]]]; auto.
      right. exists 0. constructor.
    + right. clear -Hp Hn. revert g Hn.
      induction n; intros g Hn; inversion Hn; subst.
      * exists 1. econstructor; [constructor|assumption].
      * destruct (IHn _ H0) as (k & Hk). exists (S k). econstructor; eauto.
  - destruct (H0 g H1) as [Hin|Hr]; auto.
    right. exists p. split; [now left|assumption].
  - destruct (H2 g H3) as [Hin|(q & Hq & Hr)].
    + destruct (H0 g Hin) as [Hin'|Hr]; auto.
      right. exists p. split; [now left|assumption].
    + right. exists q. split; [now right|assumption].
Qed.

(** After a successful call the file is in the visited set, and so is
    every file referred to by a file the call added. *)
Lemma Visit_closed :
  (forall f d vs r vs', Visit env c m f d vs r vs' ->
     forall x, r = SuccessTrue x ->
     In f vs' /\
     forall g, In g vs' -> ~ In g vs ->
       forall h, In h (references env c g) -> In h vs') /\
  (forall d l vs r vs', Scan env c m d l vs r vs' ->
     forall x, r = SuccessTrue x ->
     (forall p, In p l -> In p vs') /\
     forall g, In g vs' -> ~ In g vs ->
       forall h, In h (references env c g) -> In h vs').
Proof.
  apply Visit_Scan_mutind; intros.
  - discriminate.
  - split; [assumption|]. intros g Hg Hng. contradiction.
  - destruct (H2 x H3) as (Hall & Hnew).
    destruct (proj2 Visit_extends _ _ _ _ _ H1) as (new & ->).
    split. { rewrite <- app_assoc. apply in_or_app. right. now left. }
    intros g Hg Hng h Hh.
    destruct (string_dec g f) as [->|Hne].
    + now apply Hall.
    + apply (Hnew g Hg); [|assumption].
      intros Hin. apply in_app_or in Hin as [Hin|[<-|[]]]; auto.
  - split; [intros p []|]. intros g Hg Hng. contradiction.
  - discriminate.
  - subst r. destruct (H0 x eq_refl) as (Hp & Hnew1).
    destruct (H2 x0 eq_refl) as (Hrest & Hnew2).
    destruct (proj2 Visit_extends _ _ _ _ _ H1) as (n2 & ->).
    split.
    + intros q [<-|Hq]; [apply in_or_app; now left|now apply Hrest].
    + intros g Hg Hng h Hh.
      destruct (in_dec string_dec g vs1) as [Hg1|Hg1].
      * apply in_or_app. left. now apply (Hnew1 g Hg1 Hng).
      * now apply (Hnew2 g Hg Hg1).
Qed.

End VisitFacts.

(** ** Defaults, and arguments that pass validation *)

Section Arguments.

Variable env : Env.

Lemma orDefault_idem v d : orDefault (orDefault v d) d = orDefault v d.
Proof. destruct v as [[]| | |]; try reflexivity. destruct d as [[]| | |]; reflexivity. Qed.

Lemma withDefaults_idem o : withDefaults env (withDefaults env o) = withDefaults env o.
Proof. unfold withDefaults; cbn. now rewrite !orDefault_idem. Qed.

Lemma findAllImports_defaults fuel filePath o :
  findAllImports env fuel filePath (withDefaults env o)
  = findAllImports env fuel filePath o.
Proof. destruct fuel; cbn [findAllImports]; now rewrite ?withDefaults_idem. Qed.


Lemma maxDepthOnly_defaults m :
  withDefaults env (maxDepthOnly m) = typedOptions (process_cwd env) [] 0 m.
Proof. reflexivity. Qed.

Lemma map_stringsOf l : forallb isString l = true -> map PString (stringsOf l) = l.
Proof.
  induction l as [|[] l IH]; cbn; try discriminate; auto.
  intros H. now rewrite IH.
Qed.

(** Arguments that pass validation are typed arguments. *)
Lemma validate_success_typed filePath o v :
  validateFilePathAndOptions env filePath o = SuccessTrue v ->
  filePath = VString (v_filePath v) /\
  o = typedOptions (v_cwd v) (v_visitedSet v) (v_depth v) (v_maxDepth v).
Proof.
  unfold validateFilePathAndOptions, makeSuccessFalseTypeError.
  destruct filePath as [[| | | |fp]| | |]; try discriminate.
  destruct o as [oc ovs od om]; cbn [cwd visitedSet depth maxDepth].
  destruct oc as [[| | | |c]| | |]; try discriminate.
  destruct ovs as [|elements| |]; try discriminate.
  destruct od as [[| | |d|]| | |]; try discriminate.
  destruct om as [[| | |m|]| | |]; try discriminate.
  cbn [VisitedSetSchema_safeParse].
  destruct (forallb isString elements) eqn:Hs; [|discriminate].
  destruct (d >? m)%Z; [discriminate|].
  destruct (negb _); [discriminate|].
  destruct (getSourceCodeFromFilePath env fp) as [sc|]; [|discriminate].
  destruct (ast sc); [|discriminate].
  intros H. injection H as <-. cbn. split; [reflexivity|].
  unfold typedOptions, setOf. now rewrite map_stringsOf.
Qed.

End Arguments.

(** ** Termination *)

Section Termination.

Variable env : Env.
Variable c : string.
Variable m : Z.

(** What a run on typed arguments leaves is a set of strings that
    extends the one it was given; a successful run returns it. *)
Lemma run_extends fuel f d vs r store :
  findAllImports env fuel (VString f) (typedOptions c vs d m) = Some (r, store) ->
  exists new, store = setOf (vs ++ new) /\
    forall x, r = SuccessTrue x -> x = (vs ++ new)%list.
Proof.
  intros H. apply findAllImports_Visit in H as (vs' & -> & HV).
  destruct (proj1 (Visit_extends env c m) _ _ _ _ _ HV) as (new & ->).
  exists new. split; [reflexivity|].
  intros x Hx. exact (proj1 (Visit_payload env c m) _ _ _ _ _ HV x Hx).
Qed.

(** A scan returns as soon as each call it makes does, on every visited
    set that keeps an invariant [I]. *)
Lemma scanBody_returns (I : list string -> Prop) self f d :
  (forall p vs, I vs ->
     exists r store,
       self (VString p) (typedOptions c vs (d + 1) m) = Some (r, store) /\
       forall x, r = SuccessTrue x -> I x) ->
  forall nodes vs, I vs ->
    exists r store,
      scanBody env self nodes (makeProcessImportSettings env f c vs d m)
        = Some (r, store).
Proof.
  intros Hself. induction nodes as [|node rest IH]; intros vs HI.
  - rewrite scanBody_nil. eauto.
  - rewrite scanBody_cons.
    destruct (childOf _ _ _ node) as [p|]; [|now apply IH].
    destruct (Hself p vs HI) as (r & store & -> & Hx).
    destruct r as [x|errors]; [|eauto].
    apply IH. now apply Hx.
Qed.

(** The depth alone bounds the recursion. *)
Lemma findAllImports_returns_by_depth fuel : forall f d vs,
  (0 < fuel)%nat -> (m - d + 1 < Z.of_nat fuel)%Z ->
  exists r store,
    findAllImports env fuel (VString f) (typedOptions c vs d m) = Some (r, store).
Proof.
  induction fuel as [|fuel IH]; intros f d vs Hpos Hfuel; [lia|].
  rewrite findAllImports_typed.
  destruct (validateFilePathAndOptions _ _ _) as [v|errors] eqn:E; [|eauto].
  destruct (visitedSetHasPreviousVisit vs f); [eauto|].
  apply validate_typed_success in E as (Hd & _).
  apply (scanBody_returns (fun _ => True)); auto.
  intros p vs1 _.
  destruct (IH p (d + 1)%Z vs1) as (r & store & Hr); [lia|lia|].
  exists r, store. auto.
Qed.

Lemma inList_In p l : inList p l = true <-> In p l.
Proof. apply has_In. Qed.

Lemma inList_app_l u vs w : inList u vs = true -> inList u (vs ++ w) = true.
Proof. rewrite !inList_In. intros H. apply in_or_app. now left. Qed.

Lemma unvisitedIn_mono l vs vs' :
  incl vs vs' -> (unvisitedIn l vs' <= unvisitedIn l vs)%nat.
Proof.
  intros Hi. unfold unvisitedIn. induction l as [|u l IHl]; cbn; [lia|].
  destruct (inList u vs) eqn:E.
  - apply inList_In in E. apply Hi in E. apply inList_In in E. rewrite E. cbn.
    apply IHl.
  - destruct (inList u vs'); cbn; lia.
Qed.

Lemma unvisitedIn_less l vs f :
  In f l -> ~ In f vs -> (unvisitedIn l (vs ++ [f]) < unvisitedIn l vs)%nat.
Proof.
  intros HU Hf. unfold unvisitedIn. induction l as [|u l IHl]; [destruct HU|].
  pose proof (unvisitedIn_mono l vs (vs ++ [f]) (incl_appl _ (incl_refl _))) as Hm.
  unfold unvisitedIn in Hm. cbn.
  destruct (string_dec u f) as [->|Hne].
  - replace (inList f vs) with false.
    2:{ symmetry. apply has_not_In. assumption. }
    replace (inList f (vs ++ [f])) with true.
    2:{ symmetry. apply inList_In. apply in_or_app. right. now left. }
    cbn. lia.
  - destruct HU as [->|HU]; [contradiction|]. specialize (IHl HU).
    destruct (inList u vs) eqn:E.
    + rewrite (inList_app_l _ _ _ E). cbn. exact IHl.
    + destruct (inList u (vs ++ [f])); cbn; lia.
Qed.

(** The visited set alone bounds it too: with [U] a list of all the
    files that exist, every frame below the first one visits a file of
    [U] that no frame above it has visited. *)
Variable U : list string.
Hypothesis U_complete : forall f, fs_existsSync env f = true -> In f U.

Lemma findAllImports_returns_by_visits fuel : forall f d vs,
  (unvisitedIn U vs < fuel)%nat ->
  exists r store,
    findAllImports env fuel (VString f) (typedOptions c vs d m) = Some (r, store).
Proof.
  induction fuel as [|fuel IH]; intros f d vs Hfuel; [lia|].
  rewrite findAllImports_typed.
  destruct (validateFilePathAndOptions _ _ _) as [v|errors] eqn:E; [|eauto].
  destruct (visitedSetHasPreviousVisit vs f) eqn:Hseen; [eauto|].
  rewrite update_fresh by assumption.
  assert (Hex : fs_existsSync env f = true).
  { apply validate_typed_success in E as (_ & Hb & _).
    unfold parsedBody in Hb. destruct (fs_existsSync env f); congruence. }
  apply (scanBody_returns (fun x => (unvisitedIn U x < fuel)%nat)).
  - intros p vs1 H1.
    destruct (IH p (d + 1)%Z vs1 H1) as (r & store & Hr).
    exists r, store. split; [assumption|]. intros x ->.
    apply run_extends in Hr as (new & _ & Hx). rewrite (Hx _ eq_refl).
    eapply Nat.le_lt_trans; [|exact H1].
    apply unvisitedIn_mono. apply incl_appl, incl_refl.
  - apply has_not_In in Hseen.
    pose proof (unvisitedIn_less U vs f (U_complete f Hex) Hseen). lia.
Qed.

End Termination.

(** ** Traversals that cannot fail *)

Section Closure.

Variable env : Env.
Variable c : string.
Variable m : Z.
Variable root : string.

(** Every chain of references from [root] has at most [m] links and
    ends in a file that exists and parses. *)
Hypothesis paths_ok : forall n g,
  RefPath env c root n g -> (Z.of_nat n <= m)%Z /\ parsedBody env g <> None.


Lemma closed_contains_reachable (vs : list string) :
  In root vs ->
  (forall g, In g vs -> forall h, In h (references env c g) -> In h vs) ->
  forall g, Reaches env c root g -> In g vs.
Proof.
  intros Hroot Hclosed g (n & Hn).
  induction Hn; [assumption|]. eapply Hclosed; eauto.
Qed.


End Closure.

(** ** Traversals that cannot fail, cycles included *)

Section CyclicClosure.

Variable env : Env.
Variable c : string.
Variable m : Z.
Variable root : string.

(** Every chain of references from [root] that passes through no file
    twice before its last link has at most [m] links and ends in a file
    that exists and parses. *)
Hypothesis trails_ok : forall l g,
  Trail env c root l g ->
  (Z.of_nat (List.length l) <= m)%Z /\ parsedBody env g <> None.

(** The frames above a call are the files of a trail to its file, all of
    them in the visited set. *)
Lemma Visit_succeeds_on_trails :
  (forall f d vs r vs', Visit env c m f d vs r vs' ->
     forall l, d = Z.of_nat (List.length l) -> Trail env c root l f ->
     incl l vs ->
     exists x, r = SuccessTrue x) /\
  (forall d ps vs r vs', Scan env c m d ps vs r vs' ->
     forall l, (d + 1)%Z = Z.of_nat (List.length l) ->
     (forall p, In p ps -> Trail env c root l p) ->
     incl l vs ->
     exists x, r = SuccessTrue x).
Proof.
  apply Visit_Scan_mutind; intros.
  - destruct (trails_ok l f H1) as (Hd & Hb).
    destruct (parsedBody env f) as [nodes|] eqn:E; [|congruence].
    destruct (validate_typed_of_body env f c vs d m nodes) as (v & Hv & _);
      [lia|assumption|congruence].
  - eauto.
  - apply (H2 (l ++ [f])%list).
    + rewrite length_app. cbn. lia.
    + intros p Hp. apply Trail_step; auto.
    + apply incl_app; [apply incl_appl; assumption|].
      apply incl_appr, incl_refl.
  - eauto.
  - apply (H0 l); auto. apply H2. now left.
  - apply (H2 l); auto.
    + intros q Hq. apply H4. now right.
    + destruct (proj1 (Visit_extends env c m) _ _ _ _ _ H) as (new & ->).
      apply incl_appl. assumption.
Qed.

(** The traversal from [root], started on an empty visited set, succeeds
    with exactly the files [root] reaches, each once. *)
Lemma findAllImports_cyclic_closure fuel :
  (m + 1 < Z.of_nat fuel)%Z ->
  exists vs,
    findAllImports env fuel (VString root) (typedOptions c [] 0 m)
      = Some (SuccessTrue vs, setOf vs) /\
    NoDup vs /\ forall g, In g vs <-> Reaches env c root g.
Proof.
  intros Hfuel.
  destruct (trails_ok [] root (Trail_here _ _ _)) as (Hm & _). cbn in Hm.
  destruct (findAllImports_returns_by_depth env c m fuel root 0%Z [])
    as (r & store & Hrun); [lia|lia|].
  destruct (findAllImports_Visit env c m fuel _ _ _ _ _ Hrun) as (vs & -> & HV).
  destruct (proj1 Visit_succeeds_on_trails _ _ _ _ _ HV [] eq_refl
              (Trail_here _ _ _) (incl_refl _)) as (x & ->).
  pose proof (proj1 (Visit_payload env c m) _ _ _ _ _ HV x eq_refl) as ->.
  exists vs. split; [assumption|]. split.
  - apply (proj1 (Visit_NoDup env c m) _ _ _ _ _ HV). constructor.
  - destruct (proj1 (Visit_closed env c m) _ _ _ _ _ HV vs eq_refl) as (Hin & Hcl).
    intros g. split.
    + intros Hg.
      destruct (proj1 (Visit_sound env c m) _ _ _ _ _ HV g Hg) as [[]|]; auto.
    + apply closed_contains_reachable; [assumption|].
      intros g' Hg'. apply Hcl; auto.
Qed.

End CyclicClosure.

(** ** Chains of files *)

Section Chains.

Lemma chainName_length k : String.length (chainName k) = (5 + 2 * k)%nat.
Proof. induction k as [|k IH]; cbn in *; [reflexivity|]. rewrite IH. lia. Qed.

Lemma chainName_inj k n : chainName k = chainName n -> k = n.
Proof.
  intros H. apply (f_equal String.length) in H.
  rewrite !chainName_length in H. lia.
Qed.

Lemma chainName_eqb k n : (chainName k =? chainName n) = (k =? n)%nat.
Proof.
  destruct (Nat.eqb_spec k n) as [->|Hne]; [apply String.eqb_refl|].
  apply String.eqb_neq. intros H. now apply chainName_inj in H.
Qed.

Lemma chainNames_S n : chainNames (S n) = (chainNames n ++ [chainName n])%list.
Proof. unfold chainNames. now rewrite seq_S, map_app. Qed.

Lemma inList_chainName k n : inList (chainName k) (chainNames n) = (k <? n)%nat.
Proof.
  induction n as [|n IH]; [reflexivity|].
  rewrite chainNames_S. unfold inList in *. rewrite existsb_app, IH.
  cbn [existsb]. rewrite chainName_eqb, orb_false_r.
  destruct (Nat.ltb_spec k n), (Nat.eqb_spec k n), (Nat.ltb_spec k (S n));
    try reflexivity; lia.
Qed.

Lemma chain_not_visited k :
  visitedSetHasPreviousVisit (chainNames k) (chainName k) = false.
Proof.
  change (inList (chainName k) (chainNames k) = false).
  rewrite inList_chainName. apply Nat.ltb_irrefl.
Qed.

(** The body of the [k]-th file of a chain of [L] files. *)
Lemma chain_validate L ring k c vs N :
  (k < L)%nat -> (k <= N)%nat ->
  exists v,
    validateFilePathAndOptions (chainEnv L ring) (VString (chainName k))
      (typedOptions c vs (Z.of_nat k) (Z.of_nat N)) = SuccessTrue v /\
    body (v_program v) =
      if (k <? L - 1)%nat then [ImportDeclaration (chainName (S k))]
      else if ring then [ImportDeclaration (chainName 0)] else [].
Proof.
  intros HL HN. rewrite validate_typed.
  replace (Z.of_nat k >? Z.of_nat N)%Z with false by lia.
  cbn [chainEnv fs_existsSync getSourceCodeFromFilePath].
  rewrite !inList_chainName.
  replace (k <? L)%nat with true by (symmetry; now apply Nat.ltb_lt).
  cbn [negb parsed ast]. eexists. split; [reflexivity|]. reflexivity.
Qed.

Lemma chain_child L ring f c k :
  childOf (chainEnv L ring) (path_dirname (chainEnv L ring) f) c
    (ImportDeclaration (chainName k)) = Some (chainName k).
Proof. destruct k; reflexivity. Qed.

(** A chain that fits under the depth limit is traversed to its end. *)
Lemma chain_succeeds L N c :
  (L <= N + 1)%nat ->
  forall j k, (k + j + 1 = L)%nat ->
    findAllImports (chainEnv L false) (S j) (VString (chainName k))
      (typedOptions c (chainNames k) (Z.of_nat k) (Z.of_nat N))
    = Some (SuccessTrue (chainNames L), setOf (chainNames L)).
Proof.
  intros HLN. induction j as [|j IH]; intros k Hk.
  - rewrite findAllImports_typed.
    destruct (chain_validate L false k c (chainNames k) N) as (v & -> & Hb);
      [lia|lia|].
    rewrite chain_not_visited, update_fresh by apply chain_not_visited.
    rewrite Hb. replace (k <? L - 1)%nat with false
      by (symmetry; apply Nat.ltb_ge; lia).
    rewrite scanBody_nil, <- chainNames_S.
    now replace (S k) with L by lia.
  - rewrite findAllImports_typed.
    destruct (chain_validate L false k c (chainNames k) N) as (v & -> & Hb);
      [lia|lia|].
    rewrite chain_not_visited, update_fresh by apply chain_not_visited.
    rewrite Hb. replace (k <? L - 1)%nat with true
      by (symmetry; apply Nat.ltb_lt; lia).
    rewrite scanBody_cons, chain_child, <- chainNames_S.
    replace (Z.of_nat k + 1)%Z with (Z.of_nat (S k)) by lia.
    rewrite IH by lia. apply scanBody_nil.
Qed.

(** A chain longer than that fails at the first file below the limit,
    and every frame above hands that failure back. *)
Lemma chain_fails L ring N c :
  (N + 2 <= L)%nat ->
  forall j k, (k + j = N + 1)%nat ->
    findAllImports (chainEnv L ring) (S j) (VString (chainName k))
      (typedOptions c (chainNames k) (Z.of_nat k) (Z.of_nat N))
    = Some (depthExceeded (Z.of_nat N) (chainName (N + 1)),
            setOf (chainNames (N + 1))).
Proof.
  intros HLN. induction j as [|j IH]; intros k Hk.
  - rewrite findAllImports_typed, validate_typed.
    replace (Z.of_nat k >? Z.of_nat N)%Z with true by lia.
    replace k with (N + 1)%nat by lia. reflexivity.
  - rewrite findAllImports_typed.
    destruct (chain_validate L ring k c (chainNames k) N) as (v & -> & Hb);
      [lia|lia|].
    rewrite chain_not_visited, update_fresh by apply chain_not_visited.
    rewrite Hb. replace (k <? L - 1)%nat with true
      by (symmetry; apply Nat.ltb_lt; lia).
    rewrite scanBody_cons, chain_child, <- chainNames_S.
    replace (Z.of_nat k + 1)%Z with (Z.of_nat (S k)) by lia.
    rewrite IH by lia. reflexivity.
Qed.

(** The first file of a ring, met again when every file has been
    visited: the depth test comes first. *)
Lemma ring_reentry L N c fuel :
  (0 < L)%nat ->
  findAllImports (chainEnv L true) (S fuel) (VString (chainName 0))
    (typedOptions c (chainNames L) (Z.of_nat L) (Z.of_nat N))
  = Some (if (L <=? N)%nat then SuccessTrue (chainNames L)
          else depthExceeded (Z.of_nat N) (chainName 0),
          setOf (chainNames L)).
Proof.
  intros HL. rewrite findAllImports_typed, validate_typed.
  destruct (Nat.leb_spec L N) as [Hle|Hgt].
  - replace (Z.of_nat L >? Z.of_nat N)%Z with false by lia.
    cbn [chainEnv fs_existsSync getSourceCodeFromFilePath].
    rewrite !inList_chainName.
    replace (0 <? L)%nat with true by (symmetry; now apply Nat.ltb_lt).
    cbn [negb parsed ast].
    change (visitedSetHasPreviousVisit (chainNames L) (chainName 0))
      with (inList (chainName 0) (chainNames L)).
    rewrite inList_chainName.
    replace (0 <? L)%nat with true by (symmetry; now apply Nat.ltb_lt).
    reflexivity.
  - replace (Z.of_nat L >? Z.of_nat N)%Z with true by lia. reflexivity.
Qed.

(** A ring of [L] files under [maxDepth = N]: the files are visited one
    below the other, and the last one leads back to the first at depth
    [L]. *)
Lemma ring_runs L N c :
  (L <= N + 1)%nat ->
  forall j k, (k + j + 1 = L)%nat ->
    findAllImports (chainEnv L true) (S (S j)) (VString (chainName k))
      (typedOptions c (chainNames k) (Z.of_nat k) (Z.of_nat N))
    = Some (if (L <=? N)%nat then SuccessTrue (chainNames L)
            else depthExceeded (Z.of_nat N) (chainName 0),
            setOf (chainNames L)).
Proof.
  intros HLN. induction j as [|j IH]; intros k Hk.
  - rewrite findAllImports_typed.
    destruct (chain_validate L true k c (chainNames k) N) as (v & -> & Hb);
      [lia|lia|].
    rewrite chain_not_visited, update_fresh by apply chain_not_visited.
    rewrite Hb. replace (k <? L - 1)%nat with false
      by (symmetry; apply Nat.ltb_ge; lia).
    rewrite scanBody_cons, chain_child, <- chainNames_S.
    replace (Z.of_nat k + 1)%Z with (Z.of_nat L) by lia.
    replace (S k) with L by lia.
    rewrite ring_reentry by lia.
    destruct (L <=? N)%nat; [apply scanBody_nil|reflexivity].
  - rewrite findAllImports_typed.
    destruct (chain_validate L true k c (chainNames k) N) as (v & -> & Hb);
      [lia|lia|].
    rewrite chain_not_visited, update_fresh by apply chain_not_visited.
    rewrite Hb. replace (k <? L - 1)%nat with true
      by (symmetry; apply Nat.ltb_lt; lia).
    rewrite scanBody_cons, chain_child, <- chainNames_S.
    replace (Z.of_nat k + 1)%Z with (Z.of_nat (S k)) by lia.
    rewrite IH by lia.
    destruct (L <=? N)%nat; [apply scanBody_nil|reflexivity].
Qed.

End Chains.

(** ** Failures on their way up *)

Section Failures.

Variable env : Env.
Variable c : string.
Variable m : Z.

(** A frame whose child fails returns what the child returned, and so
    does every frame above it. *)
Lemma enclosed_failure_returned fuel f d vs errors store :
  EnclosesFailure env c m fuel f d vs errors store ->
  findAllImports env fuel (VString f) (typedOptions c vs d m)
    = Some (SuccessFalse errors, store).
Proof.
  induction 1 as [|fuel f d vs v pre node post vs1 p errors store
                   Hv Hseen Hbody Hpre Hchild _ IH]; [assumption|].
  rewrite findAllImports_typed, Hv, Hseen, Hbody, scanBody_app, Hpre.
  now rewrite scanBody_cons, Hchild, IH.
Qed.

(** A failure that a call returns is the failure of one validation, and
    the visited set is left as that validation found it. *)
Lemma Visit_failure_origin :
  (forall f d vs r vs', Visit env c m f d vs r vs' ->
     forall errors, r = SuccessFalse errors ->
     exists g dg,
       validateFilePathAndOptions env (VString g) (typedOptions c vs' dg m)
         = SuccessFalse errors) /\
  (forall d l vs r vs', Scan env c m d l vs r vs' ->
     forall errors, r = SuccessFalse errors ->
     exists g dg,
       validateFilePathAndOptions env (VString g) (typedOptions c vs' dg m)
         = SuccessFalse errors).
Proof.
  apply Visit_Scan_mutind; intros; try discriminate; eauto.
  injection H0 as <-. eauto.
Qed.

End Failures.

(** The depth test of the validation, on typed arguments. *)
Lemma validate_depth_exceeded env f c vs d m :
  validateFilePathAndOptions env (VString f) (typedOptions c vs d m)
    = depthExceeded m f <-> (d > m)%Z.
Proof.
  rewrite validate_typed. split.
  - destruct (d >? m)%Z eqn:E; [lia|].
    destruct (negb _); [discriminate|].
    destruct (getSourceCodeFromFilePath env f) as [sc|]; [|discriminate].
    destruct (ast sc); discriminate.
  - intros H. now replace (d >? m)%Z with true by lia.
Qed.

(** ** More fuel changes nothing *)

Section Fuel.

Variable env : Env.

Lemma guarded_mono test call call' vs next next' x :
  (forall y, call = Some y -> call' = Some y) ->
  (forall v y, next v = Some y -> next' v = Some y) ->
  guarded test call vs next = Some x ->
  guarded test call' vs next' = Some x.
Proof.
  unfold guarded. intros Hc Hn. destruct test; [|apply Hn].
  destruct call as [[[v|errors] store]|]; try discriminate;
    rewrite (Hc _ eq_refl); auto.
Qed.

Lemma processImport_mono self self' importPath settings y :
  (forall a o x, self a o = Some x -> self' a o = Some x) ->
  processImport env self importPath settings = Some y ->
  processImport env self' importPath settings = Some y.
Proof. unfold processImport. intros H. destruct (resolved _); auto. Qed.

Lemma scanBody_mono self self' :
  (forall a o x, self a o = Some x -> self' a o = Some x) ->
  forall nodes settings x,
    scanBody env self nodes settings = Some x ->
    scanBody env self' nodes settings = Some x.
Proof.
  intros H. induction nodes as [|node rest IH]; intros settings x; [auto|].
  cbn [scanBody].
  apply guarded_mono; [intros y; now apply processImport_mono|].
  intros vs1 y1. apply guarded_mono; [intros y; now apply processImport_mono|].
  intros vs2 y2. apply guarded_mono; [intros y; now apply processImport_mono|].
  intros vs3 y3. apply IH.
Qed.

Lemma findAllImports_fuel_S fuel : forall filePath options x,
  findAllImports env fuel filePath options = Some x ->
  findAllImports env (S fuel) filePath options = Some x.
Proof.
  induction fuel as [|fuel IH]; intros filePath options x; [discriminate|].
  cbn [findAllImports].
  destruct (validateFilePathAndOptions _ _ _) as [v|errors]; [|auto].
  destruct (visitedSetHasPreviousVisit _ _); [auto|].
  apply scanBody_mono. exact IH.
Qed.

(** A run that returns with some fuel returns the same with more. *)
Lemma findAllImports_fuel_le fuel fuel' filePath options x :
  (fuel <= fuel')%nat ->
  findAllImports env fuel filePath options = Some x ->
  findAllImports env fuel' filePath options = Some x.
Proof.
  induction 1 as [|k _ IH]; [auto|]. intros Hx. now apply findAllImports_fuel_S, IH.
Qed.

(** Two runs of the same call that return agree. *)
Lemma findAllImports_deterministic fuel fuel' filePath options x y :
  findAllImports env fuel filePath options = Some x ->
  findAllImports env fuel' filePath options = Some y ->
  x = y.
Proof.
  intros Hx Hy.
  apply (findAllImports_fuel_le _ (Nat.max fuel fuel')) in Hx; [|lia].
  apply (findAllImports_fuel_le _ (Nat.max fuel fuel')) in Hy; [|lia].
  congruence.
Qed.

End Fuel.

(** ** The reference graphs of the sample projects *)




Lemma chain_parsedBody L ring k :
  (k < L)%nat -> parsedBody (chainEnv L ring) (chainName k) <> None.
Proof.
  intros H. unfold parsedBody.
  cbn [chainEnv fs_existsSync getSourceCodeFromFilePath parsed ast].
  rewrite inList_chainName.
  replace (k <? L)%nat with true by (symmetry; now apply Nat.ltb_lt).
  discriminate.
Qed.

Lemma ring_references L c k :
  (k < L)%nat ->
  references (chainEnv L true) c (chainName k) =
  if (k <? L - 1)%nat then [chainName (S k)] else [chainName 0].
Proof.
  intros H. unfold references, parsedBody.
  cbn [chainEnv fs_existsSync getSourceCodeFromFilePath parsed ast body].
  rewrite !inList_chainName.
  replace (k <? L)%nat with true by (symmetry; now apply Nat.ltb_lt).
  destruct (k <? L - 1)%nat; reflexivity.
Qed.

Lemma ring_path L c k :
  (k < L)%nat -> RefPath (chainEnv L true) c (chainName 0) k (chainName k).
Proof.
  induction k as [|k IH]; intros H; [constructor|].
  econstructor; [apply IH; lia|].
  rewrite ring_references by lia.
  replace (k <? L - 1)%nat with true by (symmetry; apply Nat.ltb_lt; lia).
  now left.
Qed.

Lemma ring_cycle L c :
  (0 < L)%nat -> RefPath (chainEnv L true) c (chainName 0) L (chainName 0).
Proof.
  intros H. replace L with (S (L - 1)) at 2 by lia.
  econstructor; [apply ring_path; lia|].
  rewrite ring_references by lia.
  rewrite Nat.ltb_irrefl. now left.
Qed.



(** * The claims *)

(** ** C1: the closure of an acyclic graph *)




(** ** C2: cycles *)

(** C2, as stated, fails: in a ring of 101 files, each on the cycle, the
    call on the first file with default options comes back to it at depth
    101 and returns the failure of the depth test; it returns no visited
    set, with any fuel. *)
Lemma long_cycle_fails_with_defaults :
  (forall k, (k < 101)%nat ->
     parsedBody (chainEnv 101 true) (chainName k) <> None) /\
  RefPath (chainEnv 101 true) (process_cwd (chainEnv 101 true))
    (chainName 0) 101 (chainName 0) /\
  findAllImports (chainEnv 101 true) 102 (VString (chainName 0)) noOptions
    = Some (depthExceeded 100 (chainName 0), setOf (chainNames 101)) /\
  forall fuel vs store,
    findAllImports (chainEnv 101 true) fuel (VString (chainName 0)) noOptions
      <> Some (SuccessTrue vs, store).
Proof.
  assert (Hrun :
    findAllImports (chainEnv 101 true) 102 (VString (chainName 0)) noOptions
    = Some (depthExceeded 100 (chainName 0), setOf (chainNames 101))).
  { vm_compute. reflexivity. }
  split; [|split; [|split]].
  - intros k Hk. now apply chain_parsedBody.
  - apply ring_cycle. lia.
  - exact Hrun.
  - intros fuel vs store H.
    pose proof (findAllImports_deterministic _ _ _ _ _ _ _ H Hrun). discriminate.
Qed.

(** The chains of the two files that refer to each other. *)
Lemma cycle_trails l g :
  Trail cycleEnv "/p" "/p/a.js" l g ->
  (l = [] /\ g = "/p/a.js") \/
  (l = ["/p/a.js"] /\ g = "/p/b.js") \/
  (l = ["/p/a.js"; "/p/b.js"] /\ g = "/p/a.js").
Proof.
  induction 1 as [|l g h _ IH Hg Hh]; [auto|].
  destruct IH as [(-> & ->)|[(-> & ->)|(-> & ->)]].
  - vm_compute in Hh. destruct Hh as [<-|[]]. auto.
  - vm_compute in Hh. destruct Hh as [<-|[]]. auto.
  - exfalso. apply Hg. now left.
Qed.

Lemma cycle_trails_ok l g :
  Trail cycleEnv "/p" "/p/a.js" l g ->
  (Z.of_nat (List.length l) <= 100)%Z /\ parsedBody cycleEnv g <> None.
Proof.
  intros H. apply cycle_trails in H.
  destruct H as [(-> & ->)|[(-> & ->)|(-> & ->)]];
    (split; [cbn; lia|discriminate]).
Qed.

(** C2 (amended): when the files that exist are finitely many (listed in
    [U]), every call returns, and the frames it nests are bounded by
    their number, whatever the graph, the depth and the limit are: a
    frame either returns at once or visits a file no frame has visited,
    the file being inserted before its children are explored.  The
    visited set never holds a file twice.  On every graph, cyclic or
    not, in which the chains of references from the root that pass
    through no file twice before their last link have at most
    [maxDepth] links and end in files that exist and parse, the call
    succeeds, and the set it returns holds exactly the files the root
    reaches, hence every file of a cycle it reaches, each once; so does
    every successful call.  With [maxDepth] a safe integer, a ring of
    [L] files is traversed with success when [L <= maxDepth]; a ring of
    [maxDepth + 1] files is entered again at depth [maxDepth + 1], and
    the call returns the depth failure. *)
Theorem traversal_terminates_on_cycles :
  (forall env U,
     (forall f, fs_existsSync env f = true -> In f U) ->
     forall filePath options fuel,
       (List.length U < fuel)%nat ->
       exists r store,
         findAllImports env fuel filePath options = Some (r, store)) /\
  (forall env fuel f c vs d m r store,
     NoDup vs ->
     findAllImports env fuel (VString f) (typedOptions c vs d m)
       = Some (r, store) ->
     exists vs', store = setOf vs' /\ NoDup vs' /\ incl vs vs') /\
  (forall env root c m,
     (forall l g, Trail env c root l g ->
        (Z.of_nat (List.length l) <= m)%Z /\ parsedBody env g <> None) ->
     forall fuel, (m + 1 < Z.of_nat fuel)%Z ->
     exists vs,
       findAllImports env fuel (VString root) (typedOptions c [] 0 m)
         = Some (SuccessTrue vs, setOf vs) /\
       NoDup vs /\
       forall g, In g vs <-> Reaches env c root g) /\
  (forall env fuel f c d m vs' store,
     findAllImports env fuel (VString f) (typedOptions c [] d m)
       = Some (SuccessTrue vs', store) ->
     forall g, Reaches env c f g -> count_occ string_dec vs' g = 1%nat) /\
  (forall L N : nat,
     isSafeInteger (Z.of_nat N) = true ->
     (0 < L)%nat -> (L <= N)%nat ->
     findAllImports (chainEnv L true) (L + 1) (VString (chainName 0))
       (maxDepthOnly (Z.of_nat N))
     = Some (SuccessTrue (chainNames L), setOf (chainNames L))) /\
  (forall N : nat,
     isSafeInteger (Z.of_nat N) = true ->
     findAllImports (chainEnv (N + 1) true) (N + 2) (VString (chainName 0))
       (maxDepthOnly (Z.of_nat N))
     = Some (depthExceeded (Z.of_nat N) (chainName 0),
             setOf (chainNames (N + 1)))).
Proof.
  split; [|split; [|split; [|split; [|split]]]].
  - intros env U HU filePath options fuel Hfuel.
    rewrite <- findAllImports_defaults.
    destruct (validateFilePathAndOptions env filePath (withDefaults env options))
      as [v|errors] eqn:E.
    + apply validate_success_typed in E as (-> & ->).
      apply findAllImports_returns_by_visits with (U := U); [assumption|].
      eapply Nat.le_lt_trans; [apply filter_length_le|assumption].
    + destruct fuel as [|fuel]; [lia|].
      cbn [findAllImports]. rewrite withDefaults_idem, E. eauto.
  - intros env fuel f c vs d m r store Hnd Hrun.
    apply findAllImports_Visit in Hrun as (vs' & -> & HV).
    exists vs'. split; [reflexivity|]. split.
    + exact (proj1 (Visit_NoDup env c m) _ _ _ _ _ HV Hnd).
    + destruct (proj1 (Visit_extends env c m) _ _ _ _ _ HV) as (new & ->).
      apply incl_appl, incl_refl.
  - intros env root c m Htrails fuel Hfuel.
    now apply findAllImports_cyclic_closure.
  - intros env fuel f c d m vs' store Hrun g Hg.
    apply findAllImports_Visit in Hrun as (w & -> & HV).
    pose proof (proj1 (Visit_payload env c m) _ _ _ _ _ HV vs' eq_refl) as <-.
    pose proof (proj1 (Visit_NoDup env c m) _ _ _ _ _ HV (NoDup_nil _)) as Hnd.
    destruct (proj1 (Visit_closed env c m) _ _ _ _ _ HV vs' eq_refl) as (Hin & Hcl).
    apply NoDup_count_occ' with (decA := string_dec); [assumption|].
    apply (closed_contains_reachable env c f vs'); auto.
    intros g' Hg'. apply Hcl; auto.
  - intros L N _ HL HLN.
    rewrite <- findAllImports_defaults, maxDepthOnly_defaults.
    replace (L + 1)%nat with (S (S (L - 1))) by lia.
    pose proof (ring_runs L N "/" ltac:(lia) (L - 1) 0 ltac:(lia)) as H.
    replace (L <=? N)%nat with true in H by (symmetry; now apply Nat.leb_le).
    exact H.
  - intros N _.
    rewrite <- findAllImports_defaults, maxDepthOnly_defaults.
    replace (N + 2)%nat with (S (S N)) by lia.
    pose proof (ring_runs (N + 1) N "/" ltac:(lia) N 0 ltac:(lia)) as H.
    replace (N + 1 <=? N)%nat with false in H
      by (symmetry; apply Nat.leb_gt; lia).
    exact H.
Qed.

(** The two files that refer to each other are traversed with success. *)
Lemma traversal_terminates_on_cycles_witness :
  exists vs,
    findAllImports cycleEnv 102 (VString "/p/a.js")
      (typedOptions "/p" [] 0 100)
      = Some (SuccessTrue vs, setOf vs) /\
    NoDup vs /\
    forall g, In g vs <-> Reaches cycleEnv "/p" "/p/a.js" g.
Proof.
  refine (proj1 (proj2 (proj2 traversal_terminates_on_cycles))
            cycleEnv "/p/a.js" "/p" 100%Z cycle_trails_ok 102%nat _).
  cbn. lia.
Defined.

(** ** C3: the depth limit *)

(** C3: with [maxDepth = N] and the default depth, the call on the first
    file of a chain of [N + 2] files returns the failure of the depth
    test, met on the last file, and the call on a chain of [N + 1] files
    succeeds with all of them; each descent passes [depth + 1]; on typed
    arguments the validation returns the depth failure exactly when
    [depth > maxDepth]; and a depth failure met below any number of
    frames is what the outermost call returns. *)
Theorem depth_limit_on_chains :
  forall N : nat,
    findAllImports (chainEnv (N + 2) false) (N + 2) (VString (chainName 0))
      (maxDepthOnly (Z.of_nat N))
    = Some (depthExceeded (Z.of_nat N) (chainName (N + 1)),
            setOf (chainNames (N + 1))) /\
    findAllImports (chainEnv (N + 1) false) (N + 1) (VString (chainName 0))
      (maxDepthOnly (Z.of_nat N))
    = Some (SuccessTrue (chainNames (N + 1)), setOf (chainNames (N + 1))) /\
    (forall c vs d m,
       depth (makeFindAllImportsOptions c vs d m) = VNumber (d + 1)) /\
    (forall env f c vs d m,
       validateFilePathAndOptions env (VString f) (typedOptions c vs d m)
         = depthExceeded m f <-> (d > m)%Z) /\
    (forall env c m fuel f d vs p store,
       EnclosesFailure env c m fuel f d vs (depthExceededErrors m p) store ->
       findAllImports env fuel (VString f) (typedOptions c vs d m)
         = Some (depthExceeded m p, store)).
Proof.
  intros N. split; [|split; [|split; [|split]]].
  - rewrite <- findAllImports_defaults, maxDepthOnly_defaults.
    replace (N + 2)%nat with (S (N + 1)) at 2 by lia.
    exact (chain_fails (N + 2) false N "/" ltac:(lia) (N + 1) 0 ltac:(lia)).
  - rewrite <- findAllImports_defaults, maxDepthOnly_defaults.
    replace (N + 1)%nat with (S N) at 2 by lia.
    exact (chain_succeeds (N + 1) N "/" ltac:(lia) N 0 ltac:(lia)).
  - reflexivity.
  - apply validate_depth_exceeded.
  - intros env c m fuel f d vs p store H.
    now apply enclosed_failure_returned.
Qed.

(** Three files under [maxDepth = 1]: the failure of the third crosses
    two frames. *)
Lemma depth_limit_on_chains_witness :
  findAllImports (chainEnv 3 false) 3 (VString (chainName 0))
    (typedOptions "/" [] 0 1)
  = Some (depthExceeded 1 (chainName 2), setOf (chainNames 2)).
Proof.
  apply (proj2 (proj2 (proj2 (proj2 (depth_limit_on_chains 1))))).
  eapply Encloses_frame
    with (pre := []) (node := ImportDeclaration (chainName 1)) (post := [])
         (p := chainName 1) (vs1 := [chainName 0]);
    [reflexivity|reflexivity|reflexivity|reflexivity|reflexivity|].
  eapply Encloses_frame
    with (pre := []) (node := ImportDeclaration (chainName 2)) (post := [])
         (p := chainName 2) (vs1 := [chainName 0; chainName 1]);
    [reflexivity|reflexivity|reflexivity|reflexivity|reflexivity|].
  apply Encloses_origin. reflexivity.
Defined.

(** ** C4: the first failure *)

(** C4: when a file is scanned, every child before some node succeeds
    and the child of that node fails, the call on the file returns that
    child's failure, the same list of errors, and leaves the visited set
    as the child left it, whatever nodes follow; so does every frame
    above.  A failure that a call returns is therefore the errors of one
    validation, with the visited set as that validation found it.  On
    [x] referring to a missing [y] and then to [z], the call on [x]
    returns the file-not-found failure of [y] and [z] is not visited. *)
Theorem first_failure_returned_unchanged :
  (forall env c m fuel f d vs errors store,
     EnclosesFailure env c m fuel f d vs errors store ->
     findAllImports env fuel (VString f) (typedOptions c vs d m)
       = Some (SuccessFalse errors, store)) /\
  (forall env c m fuel f d vs errors store,
     findAllImports env fuel (VString f) (typedOptions c vs d m)
       = Some (SuccessFalse errors, store) ->
     exists g dg vs',
       store = setOf vs' /\
       validateFilePathAndOptions env (VString g) (typedOptions c vs' dg m)
         = SuccessFalse errors) /\
  findAllImports missingEnv 2 (VString "/p/x.js") noOptions
    = Some (fileNotFound "/p/y.js", setOf ["/p/x.js"]).
Proof.
  split; [|split; [|reflexivity]].
  - intros. now apply enclosed_failure_returned.
  - intros env c m fuel f d vs errors store Hrun.
    apply findAllImports_Visit in Hrun as (vs' & -> & HV).
    destruct (proj1 (Visit_failure_origin env c m) _ _ _ _ _ HV errors eq_refl)
      as (g & dg & Hg).
    exists g, dg, vs'. auto.
Qed.

(** The missing [y] under the frame of [x]. *)
Lemma first_failure_returned_unchanged_witness :
  findAllImports missingEnv 2 (VString "/p/x.js") (typedOptions "/p" [] 0 100)
  = Some (SuccessFalse (fileNotFoundErrors "/p/y.js"), setOf ["/p/x.js"]).
Proof.
  apply (proj1 first_failure_returned_unchanged).
  eapply Encloses_frame
    with (pre := []) (node := ImportDeclaration "./y.js")
         (post := [ImportDeclaration "./z.js"])
         (p := "/p/y.js") (vs1 := ["/p/x.js"]);
    [reflexivity|reflexivity|reflexivity|reflexivity|reflexivity|].
  apply Encloses_origin. reflexivity.
Defined.

(** ** C10: validation comes before the short circuit *)

(** C10: a call on a file that is already in the visited set validates
    first: whatever failure the validation returns is what the call
    returns; so a visited file that no longer exists gives the
    file-not-found failure, one that no longer parses gives the parse
    failure, and only a file that passes validation gives the
    short-circuit success. *)
Theorem validation_precedes_short_circuit :
  forall env fuel f c vs d m,
    In f vs ->
    (forall errors,
       validateFilePathAndOptions env (VString f) (typedOptions c vs d m)
         = SuccessFalse errors ->
       findAllImports env (S fuel) (VString f) (typedOptions c vs d m)
         = Some (SuccessFalse errors, setOf vs)) /\
    ((d <= m)%Z -> fs_existsSync env f = false ->
       findAllImports env (S fuel) (VString f) (typedOptions c vs d m)
         = Some (fileNotFound f, setOf vs)) /\
    ((d <= m)%Z -> fs_existsSync env f = true ->
       (forall sc, getSourceCodeFromFilePath env f = Some sc -> ast sc = None) ->
       findAllImports env (S fuel) (VString f) (typedOptions c vs d m)
         = Some (parseFailed f, setOf vs)) /\
    (forall v,
       validateFilePathAndOptions env (VString f) (typedOptions c vs d m)
         = SuccessTrue v ->
       findAllImports env (S fuel) (VString f) (typedOptions c vs d m)
         = Some (SuccessTrue vs, setOf vs)).
Proof.
  intros env fuel f c vs d m Hin.
  apply has_In in Hin. split; [|split; [|split]].
  - intros errors E. now rewrite findAllImports_typed, E.
  - intros Hd Hex. rewrite findAllImports_typed, validate_typed.
    replace (d >? m)%Z with false by lia. now rewrite Hex.
  - intros Hd Hex Hast. rewrite findAllImports_typed, validate_typed.
    replace (d >? m)%Z with false by lia. rewrite Hex. cbn [negb].
    destruct (getSourceCodeFromFilePath env f) as [sc|] eqn:E; [|reflexivity].
    now rewrite (Hast sc eq_refl).
  - intros v E. now rewrite findAllImports_typed, E, Hin.
Qed.

(** A visited file that was deleted, and one that no longer parses. *)
Lemma validation_precedes_short_circuit_witness :
  findAllImports staleEnv 1 (VString "/p/a.js")
    (typedOptions "/p" ["/p/a.js"; "/p/b.js"; "/p/c.js"] 1 100)
  = Some (fileNotFound "/p/a.js", setOf ["/p/a.js"; "/p/b.js"; "/p/c.js"]) /\
  findAllImports staleEnv 1 (VString "/p/b.js")
    (typedOptions "/p" ["/p/a.js"; "/p/b.js"; "/p/c.js"] 1 100)
  = Some (parseFailed "/p/b.js", setOf ["/p/a.js"; "/p/b.js"; "/p/c.js"]).
Proof.
  split.
  - apply (validation_precedes_short_circuit staleEnv 0 "/p/a.js" "/p"
             ["/p/a.js"; "/p/b.js"; "/p/c.js"] 1 100).
    + cbn [In]. auto.
    + lia.
    + reflexivity.
  - apply (validation_precedes_short_circuit staleEnv 0 "/p/b.js" "/p"
             ["/p/a.js"; "/p/b.js"; "/p/c.js"] 1 100).
    + cbn [In]. auto.
    + lia.
    + reflexivity.
    + intros sc H. vm_compute in H. injection H as <-. reflexivity.
Defined.

(** ** C6: dynamic imports *)

(** C6 fails on the code: the statement [import('./b.js');] is an
    expression statement, which [nodeIsImportExpression] does not
    recognise, so the scan passes it over, as it does the same
    expression under [await]: [b.js] exists and the specifier resolves
    to it, yet the call on [a.js] returns a visited set without it. *)
Theorem dynamic_import_statement_not_followed :
  (forall env self s rest f c vs d m,
     scanBody env self
       (ExpressionStatement (ImportExpression (Literal s)) :: rest)
       (makeProcessImportSettings env f c vs d m)
     = scanBody env self rest (makeProcessImportSettings env f c vs d m)) /\
  (forall env self s rest f c vs d m,
     scanBody env self
       (ExpressionStatement (AwaitExpression (ImportExpression (Literal s)))
        :: rest)
       (makeProcessImportSettings env f c vs d m)
     = scanBody env self rest (makeProcessImportSettings env f c vs d m)) /\
  resolved (resolveImportingPath dynamicEnv "/p" "./b.js" "/p")
    = Some "/p/b.js" /\
  parsedBody dynamicEnv "/p/b.js" = Some [] /\
  parsedBody dynamicEnv "/p/a.js"
    = Some [ExpressionStatement (ImportExpression (Literal "./b.js"))] /\
  findAllImports dynamicEnv 2 (VString "/p/a.js") noOptions
    = Some (SuccessTrue ["/p/a.js"], setOf ["/p/a.js"]) /\
  forall fuel vs store,
    findAllImports dynamicEnv fuel (VString "/p/a.js") noOptions
      = Some (SuccessTrue vs, store) ->
    ~ In "/p/b.js" vs.
Proof.
  split; [|split; [|split; [|split; [|split; [|split]]]]];
    try reflexivity.
  intros fuel vs store H.
  assert (Hrun : findAllImports dynamicEnv 2 (VString "/p/a.js") noOptions
                 = Some (SuccessTrue ["/p/a.js"], setOf ["/p/a.js"]))
    by reflexivity.
  pose proof (findAllImports_deterministic _ _ _ _ _ _ _ H Hrun) as E.
  injection E as -> _. intros [E|[]]. discriminate.
Qed.

(** ** The callback variants *)

Section CallbackFacts.

Variable env : Env.
Variable A : Type.

Abbreviation config cb acc :=
  (ConfigObject A (CallbackFunction A cb) acc).

(** The asynchronous variant is the synchronous one, read as a promise. *)
Lemma findAllImportsWithCallbackAsync_sync :
  findAllImportsWithCallbackAsync env A = findAllImportsWithCallbackSync env A.
Proof. reflexivity. Qed.

(** A node makes the scan throw when it is an import expression, call
    [self] on its child when it has one, and is passed over otherwise. *)
Lemma scanBodySync_cons self f c vs d m node rest cb acc heap :
  scanBodySync env A self (node :: rest) cb acc
    (makeProcessImportSettings env f c vs d m) heap =
  if nodeIsImportExpression node then Some (Throw destructureUndefined, heap)
  else
    match childOf env (path_dirname env f) c node with
    | None =>
        scanBodySync env A self rest cb acc
          (makeProcessImportSettings env f c vs d m) heap
    | Some p =>
        match self (VString p) (config cb acc) (typedOptions c vs (d + 1) m)
                (h_trace A heap) with
        | None => None
        | Some (Throw e, h) => Some (Throw e, h)
        | Some (Normal (SuccessFalse errors), h) =>
            Some (Normal (SuccessFalse errors), h)
        | Some (Normal (SuccessTrue (vs', acc')), h) =>
            scanBodySync env A self rest cb acc'
              (makeProcessImportSettings env f c vs' d m) h
        end
    end.
Proof.
  unfold childOf, importPathOf.
  destruct node as [src | e | src | k].
  - cbn -[resolved]. unfold processImportWithCallbackSync; cbn -[resolved].
    destruct (resolved _) as [p|]; [|reflexivity].
    change (makeFindAllImportsOptions c vs d m) with (typedOptions c vs (d + 1) m).
    destruct (self _ _ _ _) as [[[[[vs' acc']|errors]|err] h]|]; reflexivity.
  - change (nodeIsImportDeclaration (ExpressionStatement e)) with false.
    change (nodeIsImportExpression (ExpressionStatement e)) with false.
    cbn [scanBodySync guardedCb].
    destruct (nodeIsRequireCall (ExpressionStatement e)); [|reflexivity].
    unfold processImportWithCallbackSync;
      cbn -[resolved node_first_argument_value].
    destruct (resolved _) as [p|]; [|reflexivity].
    change (makeFindAllImportsOptions c vs d m) with (typedOptions c vs (d + 1) m).
    destruct (self _ _ _ _) as [[[[[vs' acc']|errors]|err] h]|]; reflexivity.
  - reflexivity.
  - destruct k; reflexivity.
Qed.

(** The [catch] block returns a failure or throws; it returns no
    success. *)
Lemma caught_not_success f e payload :
  caught A f e <> Normal (SuccessTrue payload).
Proof. unfold caught. destruct (templateString e); discriminate. Qed.

Lemma caught_failure f e errors :
  caught A f e = Normal (SuccessFalse errors) ->
  exists text,
    templateString e = Normal text /\
    errors = [ {| type := typeError; message := callbackErrorMessage f text |} ].
Proof.
  unfold caught. destruct (templateString e) as [text|error]; [|discriminate].
  intros H. injection H as <-. eauto.
Qed.

Lemma caught_throw f e error :
  caught A f e = Throw error -> templateString e = Throw error.
Proof.
  unfold caught. destruct (templateString e) as [text|err]; [discriminate|].
  intros H. now injection H as <-.
Qed.

(** One unfolding of the synchronous variant on typed arguments. *)
Lemma findAllImportsWithCallbackSync_typed fuel f cb acc c vs d m trace :
  findAllImportsWithCallbackSync env A (S fuel) (VString f) (config cb acc)
    (typedOptions c vs d m) trace =
  let heap := {| h_visitedSet := setOf vs;
                 h_callbackConfig := config cb acc;
                 h_trace := trace |} in
  match validateFilePathAndOptions env (VString f) (typedOptions c vs d m) with
  | SuccessFalse errors => Some (Normal (SuccessFalse errors), heap)
  | SuccessTrue v =>
      if visitedSetHasPreviousVisit vs f then
        Some (Normal (SuccessTrue (vs, acc)), heap)
      else
        let r := cb f (v_sourceCode v) acc in
        let heap' :=
          {| h_visitedSet := setOf (updateVisitedSet vs f);
             h_callbackConfig := config cb (acc_after A r);
             h_trace := (trace ++ [ {| inv_filePath := f;
                                       inv_visitedSet := updateVisitedSet vs f;
                                       inv_accumulator := acc;
                                       inv_thrown := thrown A r |} ])%list |} in
        match thrown A r with
        | Some e => Some (caught A f e, heap')
        | None =>
            scanBodySync env A (findAllImportsWithCallbackSync env A fuel)
              (body (v_program v)) cb (acc_after A r)
              (makeProcessImportSettings env f c (updateVisitedSet vs f) d m)
              heap'
        end
  end.
Proof.
  cbn [findAllImportsWithCallbackSync]. rewrite withDefaults_typed.
  destruct (validateFilePathAndOptions _ _ _) as [v|errors] eqn:E; [|reflexivity].
  apply validate_typed_success in E as (_ & _ & -> & -> & -> & -> & ->).
  reflexivity.
Qed.

(** A configuration that passes its validation is an object with a
    function. *)
Lemma validateCallbackConfig_success cfg cb acc :
  validateCallbackConfig A cfg = SuccessTrue (cb, acc) -> cfg = config cb acc.
Proof.
  destruct cfg as [[g|v] a|v]; cbn; try discriminate.
  - intros H. now injection H as -> ->.
  - destruct (_ || _); discriminate.
Qed.

(** *** The trace of a run *)

Lemma TraceOf_here trace completion heap :
  h_trace A heap = trace -> TraceOf A trace completion heap.
Proof.
  intros H. exists []. rewrite app_nil_r. repeat split; auto.
Qed.

Lemma TraceOf_after trace new1 completion heap :
  Forall (wellPlaced A) new1 -> Forall (quiet A) new1 ->
  TraceOf A (trace ++ new1) completion heap ->
  TraceOf A trace completion heap.
Proof.
  intros Hw Hq (new & Ht & Hw' & Hcase).
  exists (new1 ++ new)%list. rewrite app_assoc. split; [assumption|].
  split; [now apply Forall_app|].
  destruct Hcase as [Hq'|(pre & i & e & -> & Hpre & Hi & Hc & Hs)].
  - left. now apply Forall_app.
  - right. exists (new1 ++ pre)%list, i, e. rewrite app_assoc.
    repeat split; auto. now apply Forall_app.
Qed.

(** After a success nothing in the trace has thrown. *)
Lemma TraceOf_success trace payload heap :
  TraceOf A trace (Normal (SuccessTrue payload)) heap ->
  exists new, h_trace A heap = (trace ++ new)%list /\
    Forall (wellPlaced A) new /\ Forall (quiet A) new.
Proof.
  intros (new & Ht & Hw & [Hq|(pre & i & e & _ & _ & _ & Hc & _)]);
    [eauto|]. symmetry in Hc. now apply caught_not_success in Hc.
Qed.

Lemma scanBodySync_trace self f c d m cb :
  RunHasTrace A self ->
  forall nodes vs acc heap completion heap',
    scanBodySync env A self nodes cb acc
      (makeProcessImportSettings env f c vs d m) heap
      = Some (completion, heap') ->
    TraceOf A (h_trace A heap) completion heap'.
Proof.
  intros Hself. induction nodes as [|node rest IH];
    intros vs acc heap completion heap'.
  - cbn. intros H. injection H as <- <-. now apply TraceOf_here.
  - rewrite scanBodySync_cons.
    destruct (nodeIsImportExpression node).
    { intros H. injection H as <- <-. now apply TraceOf_here. }
    destruct (childOf _ _ _ node) as [p|]; [|apply IH].
    destruct (self _ _ _ _) as [[[[[vs' acc']|errors]|err] h]|] eqn:E;
      try discriminate.
    + intros H. apply Hself in E.
      apply TraceOf_success in E as (new1 & Ht & Hw & Hq).
      apply IH in H. rewrite Ht in H. eapply TraceOf_after; eauto.
    + intros H. injection H as <- <-. now apply Hself in E.
    + intros H. injection H as <- <-. now apply Hself in E.
Qed.

Lemma findAllImportsWithCallbackSync_trace fuel :
  RunHasTrace A (findAllImportsWithCallbackSync env A fuel).
Proof.
  induction fuel as [|fuel IH];
    intros f cb acc c vs d m trace completion heap; [discriminate|].
  rewrite findAllImportsWithCallbackSync_typed. cbv zeta.
  destruct (validateFilePathAndOptions _ _ _) as [v|errors].
  2:{ intros H. injection H as <- <-. now apply TraceOf_here. }
  destruct (visitedSetHasPreviousVisit vs f) eqn:Hseen.
  { intros H. injection H as <- <-. now apply TraceOf_here. }
  rewrite update_fresh by assumption.
  assert (Hw : wellPlaced A
                 {| inv_filePath := f; inv_visitedSet := (vs ++ [f])%list;
                    inv_accumulator := acc;
                    inv_thrown := thrown A (cb f (v_sourceCode v) acc) |}).
  { exists vs. split; [reflexivity|]. now apply has_not_In. }
  destruct (thrown A (cb f (v_sourceCode v) acc)) as [e|] eqn:Ethrown.
  - intros H. injection H as <- <-.
    eexists. split; [reflexivity|]. split; [repeat constructor; exact Hw|].
    right. exists []. eexists. exists e. cbn. repeat split; auto.
  - intros H. apply (scanBodySync_trace _ _ _ _ _ _ IH) in H. cbn [h_trace] in H.
    eapply TraceOf_after; [| |exact H]; repeat constructor; auto.
Qed.

End CallbackFacts.

(** ** What a failure carries *)

Section Errors.

Variable env : Env.








Variable A : Type.





End Errors.

(** ** C5: the errors of a failure *)




(** ** C8: a failed validation touches nothing *)

Section FailedValidation.

Variable env : Env.

Lemma validation_fails_on_untyped filePath o :
  typeof filePath <> "string" \/ typeof (cwd o) <> "string" \/
  (forall l, visitedSet o <> VSet l) \/
  (exists l, visitedSet o = VSet l /\ forallb isString l = false) \/
  typeof (depth o) <> "number" \/ typeof (maxDepth o) <> "number" ->
  success (validateFilePathAndOptions env filePath o) = false.
Proof.
  intros H.
  destruct (validateFilePathAndOptions env filePath o) as [v|] eqn:E;
    [|reflexivity].
  apply validate_success_typed in E as (-> & ->). exfalso. cbn in H.
  destruct H as [H|[H|[H|[(l & Hl & Hs)|[H|H]]]]]; try congruence.
  - now apply (H (map PString (v_visitedSet v))).
  - injection Hl as <-. now rewrite forallb_isString_map in Hs.
Qed.

Lemma validation_fails_on_typed f c vs d m :
  (d > m)%Z \/ fs_existsSync env f = false \/ parsedBody env f = None ->
  success (validateFilePathAndOptions env (VString f) (typedOptions c vs d m))
    = false.
Proof.
  intros H.
  destruct (validateFilePathAndOptions _ _ _) as [v|] eqn:E; [|reflexivity].
  apply validate_typed_success in E as (Hd & Hb & _). exfalso.
  destruct H as [H|[H|H]]; [lia| |congruence].
  unfold parsedBody in Hb. rewrite H in Hb. discriminate.
Qed.

End FailedValidation.

(** C8: when the validation of the file path and the options fails, each
    of the three entry points returns that failure at once (one unit of
    fuel, no recursion), the visited set object is left as it was given,
    and in the callback variants so is the callback configuration with
    its accumulator, and the trace: the callback is not invoked.  The
    validation fails on each of the listed inputs. *)
Theorem failed_validation_touches_nothing :
  (forall env A fuel filePath cfg options trace errors,
     validateFilePathAndOptions env filePath (withDefaults env options)
       = SuccessFalse errors ->
     findAllImports env (S fuel) filePath options
       = Some (SuccessFalse errors, visitedSet (withDefaults env options)) /\
     findAllImportsWithCallbackSync env A (S fuel) filePath cfg options trace
       = Some (Normal (SuccessFalse errors),
               {| h_visitedSet := visitedSet (withDefaults env options);
                  h_callbackConfig := cfg;
                  h_trace := trace |}) /\
     findAllImportsWithCallbackAsync env A (S fuel) filePath cfg options trace
       = Some (Normal (SuccessFalse errors),
               {| h_visitedSet := visitedSet (withDefaults env options);
                  h_callbackConfig := cfg;
                  h_trace := trace |})) /\
  (forall env options s,
     visitedSet options = VSet s ->
     visitedSet (withDefaults env options) = VSet s) /\
  (forall env filePath o,
     typeof filePath <> "string" \/ typeof (cwd o) <> "string" \/
     (forall l, visitedSet o <> VSet l) \/
     (exists l, visitedSet o = VSet l /\ forallb isString l = false) \/
     typeof (depth o) <> "number" \/ typeof (maxDepth o) <> "number" ->
     success (validateFilePathAndOptions env filePath o) = false) /\
  (forall env f c vs d m,
     (d > m)%Z \/ fs_existsSync env f = false \/ parsedBody env f = None ->
     success (validateFilePathAndOptions env (VString f) (typedOptions c vs d m))
       = false).
Proof.
  split; [|split; [|split]].
  - intros env A fuel filePath cfg options trace errors E.
    change (findAllImportsWithCallbackAsync env A)
      with (findAllImportsWithCallbackSync env A).
    cbn [findAllImports findAllImportsWithCallbackSync]. now rewrite E.
  - intros env options s H. cbn. now rewrite H.
  - apply validation_fails_on_untyped.
  - apply validation_fails_on_typed.
Qed.

(** The synchronous variant on a missing file. *)
Lemma failed_validation_touches_nothing_witness :
  findAllImportsWithCallbackSync missingEnv (list string) 1 (VString "/p/y.js")
    (ConfigObject _ (CallbackFunction _ recordFile) ["/p/x.js"])
    (typedOptions "/p" ["/p/x.js"] 1 100) []
  = Some (Normal (fileNotFound "/p/y.js"),
          {| h_visitedSet := setOf ["/p/x.js"];
             h_callbackConfig :=
               ConfigObject _ (CallbackFunction _ recordFile) ["/p/x.js"];
             h_trace := [] |}).
Proof.
  apply (proj1 failed_validation_touches_nothing missingEnv (list string) 0
           (VString "/p/y.js")
           (ConfigObject _ (CallbackFunction _ recordFile) ["/p/x.js"])
           (typedOptions "/p" ["/p/x.js"] 1 100) []
           (fileNotFoundErrors "/p/y.js")).
  reflexivity.
Defined.

(** ** C9: the callback *)

Section CallbackOrder.

Variable env : Env.
Variable A : Type.

(** The trace of a run on any arguments. *)
Lemma findAllImportsWithCallbackSync_TraceOf fuel filePath cfg options trace
    completion heap :
  findAllImportsWithCallbackSync env A fuel filePath cfg options trace
    = Some (completion, heap) ->
  TraceOf A trace completion heap.
Proof.
  intros H. destruct fuel as [|fuel]; [discriminate|].
  pose proof H as H0.
  cbn [findAllImportsWithCallbackSync] in H.
  destruct (validateFilePathAndOptions env filePath (withDefaults env options))
    as [v|errors] eqn:E.
  2:{ injection H as <- <-. now apply TraceOf_here. }
  destruct (validateCallbackConfig A cfg) as [[cb acc]|errors] eqn:Ec.
  2:{ injection H as <- <-. now apply TraceOf_here. }
  apply validate_success_typed in E as (-> & Ho).
  apply validateCallbackConfig_success in Ec as ->.
  apply (findAllImportsWithCallbackSync_trace env A (S fuel)
           (v_filePath v) cb acc (v_cwd v) (v_visitedSet v) (v_depth v)
           (v_maxDepth v)).
  rewrite <- H0. cbn [findAllImportsWithCallbackSync].
  now rewrite <- Ho, withDefaults_idem.
Qed.

(** The invocation that threw, if there is one, is the last one. *)
Lemma thrower_is_last trace completion heap :
  TraceOf A trace completion heap ->
  exists new,
    h_trace A heap = (trace ++ new)%list /\
    Forall (wellPlaced A) new /\
    forall pre i post e,
      new = (pre ++ i :: post)%list -> inv_thrown A i = Some e ->
      post = [] /\
      completion = caught A (inv_filePath A i) e /\
      h_visitedSet A heap = setOf (inv_visitedSet A i) /\
      In (inv_filePath A i) (inv_visitedSet A i).
Proof.
  intros (new & Ht & Hw & Hcase). exists new. split; [assumption|].
  split; [assumption|].
  intros pre i post e Hnew Hi.
  assert (Hloud : ~ quiet A i) by (unfold quiet; congruence).
  assert (Hin : In i new) by (subst new; apply in_or_app; right; now left).
  destruct Hcase as [Hq|(pre' & i' & e' & Hnew' & Hpre & Hi' & Hc & Hs)].
  { rewrite Forall_forall in Hq. now apply Hq in Hin. }
  assert (Hlast : post = [] /\ i = i').
  { rewrite Hnew' in Hnew. clear -Hnew Hpre Hloud.
    destruct post as [|x post] using rev_ind.
    - apply app_inj_tail in Hnew. destruct Hnew as (_ & ->). auto.
    - clear IHpost. exfalso.
      change (pre ++ i :: post ++ [x])%list
        with (pre ++ (i :: post) ++ [x])%list in Hnew.
      rewrite app_assoc in Hnew. apply app_inj_tail in Hnew as (Hp & _).
      subst pre'. rewrite Forall_forall in Hpre. apply Hloud, Hpre.
      apply in_or_app. right. now left. }
  destruct Hlast as (-> & <-).
  assert (e' = e) by congruence. subst e'.
  repeat split; auto.
  rewrite Forall_forall in Hw. destruct (Hw i Hin) as (before & -> & _).
  apply in_or_app. right. now left.
Qed.

End CallbackOrder.




(** ** C7: what crosses the boundary *)

(** C7 fails on the code: the [catch] block of the two callback variants
    builds the message of its failure with a template literal of the
    thrown value, and the conversion of that value to a string throws
    when the value is a Symbol, or an object without such a conversion.
    That error leaves the [catch] block, the frame and every frame
    around it: the synchronous entry point throws a [TypeError] and the
    asynchronous one returns a promise rejected with it, where
    [findAllImports] on the same file returns a success.  On the diamond
    with a callback that throws a Symbol on [b.js], both variants
    complete with that [TypeError].  The call that the two variants make
    for a body element of type ["ImportExpression"] passes two arguments
    where three are expected and throws as well; the statements of a
    parsed program hold no such element. *)
Theorem unprintable_throw_escapes_callback_variants :
  (forall env A fuel f cb acc c vs d m trace v e error,
     validateFilePathAndOptions env (VString f) (typedOptions c vs d m)
       = SuccessTrue v ->
     ~ In f vs ->
     thrown A (cb f (v_sourceCode v) acc) = Some e ->
     templateString e = Throw error ->
     let heap :=
       {| h_visitedSet := setOf (vs ++ [f]);
          h_callbackConfig :=
            ConfigObject A (CallbackFunction A cb)
              (acc_after A (cb f (v_sourceCode v) acc));
          h_trace := (trace ++ [ {| inv_filePath := f;
                                    inv_visitedSet := (vs ++ [f])%list;
                                    inv_accumulator := acc;
                                    inv_thrown := Some e |} ])%list |} in
     findAllImportsWithCallbackSync env A (S fuel) (VString f)
       (ConfigObject A (CallbackFunction A cb) acc) (typedOptions c vs d m)
       trace = Some (Throw error, heap) /\
     findAllImportsWithCallbackAsync env A (S fuel) (VString f)
       (ConfigObject A (CallbackFunction A cb) acc) (typedOptions c vs d m)
       trace = Some (Throw error, heap)) /\
  (forall env A fuel filePath cfg options trace completion heap,
     findAllImportsWithCallbackSync env A fuel filePath cfg options trace
       = Some (completion, heap) \/
     findAllImportsWithCallbackAsync env A fuel filePath cfg options trace
       = Some (completion, heap) ->
     exists new,
       h_trace A heap = (trace ++ new)%list /\
       forall i e error,
         In i new -> inv_thrown A i = Some e ->
         templateString e = Throw error ->
         completion = Throw error) /\
  findAllImportsWithCallbackSync diamondEnv (list string) 3
    (VString "/p/a.js")
    (ConfigObject _ (CallbackFunction _ (throwSymbolOn ["/p/b.js"])) [])
    noOptions []
  = Some (Throw cannotConvertSymbol,
          {| h_visitedSet := setOf ["/p/a.js"; "/p/b.js"];
             h_callbackConfig :=
               ConfigObject _ (CallbackFunction _ (throwSymbolOn ["/p/b.js"]))
                 ["/p/a.js"; "/p/b.js"];
             h_trace := [ {| inv_filePath := "/p/a.js";
                             inv_visitedSet := ["/p/a.js"];
                             inv_accumulator := [];
                             inv_thrown := None |};
                          {| inv_filePath := "/p/b.js";
                             inv_visitedSet := ["/p/a.js"; "/p/b.js"];
                             inv_accumulator := ["/p/a.js"];
                             inv_thrown := Some ThrownSymbol |} ] |}) /\
  findAllImportsWithCallbackAsync diamondEnv (list string) 3
    (VString "/p/a.js")
    (ConfigObject _ (CallbackFunction _ (throwSymbolOn ["/p/b.js"])) [])
    noOptions []
  = Some (Throw cannotConvertSymbol,
          {| h_visitedSet := setOf ["/p/a.js"; "/p/b.js"];
             h_callbackConfig :=
               ConfigObject _ (CallbackFunction _ (throwSymbolOn ["/p/b.js"]))
                 ["/p/a.js"; "/p/b.js"];
             h_trace := [ {| inv_filePath := "/p/a.js";
                             inv_visitedSet := ["/p/a.js"];
                             inv_accumulator := [];
                             inv_thrown := None |};
                          {| inv_filePath := "/p/b.js";
                             inv_visitedSet := ["/p/a.js"; "/p/b.js"];
                             inv_accumulator := ["/p/a.js"];
                             inv_thrown := Some ThrownSymbol |} ] |}) /\
  findAllImports diamondEnv 3 (VString "/p/a.js") noOptions
  = Some (SuccessTrue ["/p/a.js"; "/p/b.js"; "/p/c.js"],
          setOf ["/p/a.js"; "/p/b.js"; "/p/c.js"]) /\
  (forall env A self s rest cb acc f c vs d m heap,
     scanBodySync env A self (ImportExpressionNode s :: rest) cb acc
       (makeProcessImportSettings env f c vs d m) heap
     = Some (Throw destructureUndefined, heap) /\
     scanBodyAsync env A self (ImportExpressionNode s :: rest) cb acc
       (makeProcessImportSettings env f c vs d m) heap
     = Some (Throw destructureUndefined, heap)).
Proof.
  split; [|split; [|split; [|split; [|split]]]]; try reflexivity.
  - intros env A fuel f cb acc c vs d m trace v e error Hv Hf He Hthrow heap.
    change (findAllImportsWithCallbackAsync env A)
      with (findAllImportsWithCallbackSync env A).
    assert (Hrun :
      findAllImportsWithCallbackSync env A (S fuel) (VString f)
        (ConfigObject A (CallbackFunction A cb) acc) (typedOptions c vs d m)
        trace = Some (Throw error, heap)).
    { rewrite findAllImportsWithCallbackSync_typed, Hv. cbv zeta.
      apply has_not_In in Hf.
      rewrite Hf, update_fresh, He by assumption.
      unfold caught. rewrite Hthrow. reflexivity. }
    split; exact Hrun.
  - intros env A fuel filePath cfg options trace completion heap H.
    assert (HT : TraceOf A trace completion heap).
    { apply (findAllImportsWithCallbackSync_TraceOf env A fuel filePath cfg
               options).
      destruct H as [H|H]; exact H. }
    apply thrower_is_last in HT as (new & Ht & _ & Hlast).
    exists new. split; [assumption|].
    intros i e error Hin Hi Hthrow.
    apply in_split in Hin as (pre & post & Hnew).
    destruct (Hlast pre i post e Hnew Hi) as (_ & Hc & _).
    unfold caught in Hc. now rewrite Hthrow in Hc.
  - intros env A self s rest cb acc f c vs d m heap. split; reflexivity.
Qed.

(** * Further properties *)

(** ** A visited set given by the caller *)

Section GivenVisitedSet.

Variable env : Env.
Variable c : string.
Variable m : Z.

Lemma ReachesOutside_end vs f g : ReachesOutside env c vs f g -> ~ In g vs.
Proof. now destruct 1. Qed.

Lemma ReachesOutside_weaken vs vs' f g :
  incl vs vs' -> ReachesOutside env c vs' f g -> ReachesOutside env c vs f g.
Proof.
  intros Hi. induction 1 as [f Hf|f g h _ IH Hh Hn].
  - constructor. auto.
  - econstructor; eauto.
Qed.

Lemma ReachesOutside_cons vs f p g :
  ~ In f vs -> In p (references env c f) ->
  ReachesOutside env c vs p g -> ReachesOutside env c vs f g.
Proof.
  intros Hf Hp. induction 1 as [p Hn|p g h _ IH Hh Hn].
  - econstructor; [constructor; exact Hf|exact Hp|exact Hn].
  - econstructor; [now apply IH|exact Hh|exact Hn].
Qed.

(** What a call adds is reached from its file through files that were
    not in the visited set. *)
Lemma Visit_outside :
  (forall f d vs r vs', Visit env c m f d vs r vs' ->
     forall g, In g vs' -> In g vs \/ ReachesOutside env c vs f g) /\
  (forall d l vs r vs', Scan env c m d l vs r vs' ->
     forall g, In g vs' ->
     In g vs \/ exists p, In p l /\ ReachesOutside env c vs p g).
Proof.
  apply Visit_Scan_mutind; intros; auto.
  - destruct (H2 g H3) as [Hin|(p & Hp & Hr)].
    + apply in_app_or in Hin as [Hin|[<-|[]]]; auto.
      right. now constructor.
    + right. apply (ReachesOutside_cons vs f p g); auto.
      eapply ReachesOutside_weaken; [|exact Hr]. apply incl_appl, incl_refl.
  - destruct (H0 g H1) as [Hin|Hr]; auto.
    right. exists p. split; [now left|assumption].
  - destruct (H2 g H3) as [Hin|(q & Hq & Hr)].
    + destruct (H0 g Hin) as [Hin'|Hr]; auto.
      right. exists p. split; [now left|assumption].
    + right. exists q. split; [now right|].
      destruct (proj1 (Visit_extends env c m) _ _ _ _ _ H) as (new & ->).
      eapply ReachesOutside_weaken; [|exact Hr]. apply incl_appl, incl_refl.
Qed.

(** Every file a call adds exists and parses. *)
Lemma Visit_adds_parsed :
  (forall f d vs r vs', Visit env c m f d vs r vs' ->
     forall g, In g vs' -> In g vs \/ parsedBody env g <> None) /\
  (forall d l vs r vs', Scan env c m d l vs r vs' ->
     forall g, In g vs' -> In g vs \/ parsedBody env g <> None).
Proof.
  apply Visit_Scan_mutind; intros; auto.
  - destruct (H2 g H3) as [Hin|Hp]; auto.
    apply in_app_or in Hin as [Hin|[<-|[]]]; auto.
    right. apply validate_typed_success in H as (_ & -> & _). discriminate.
  - destruct (H2 g H3) as [Hin|Hp]; auto.
Qed.

(** A call that succeeds passed the validation of its file. *)
Lemma Visit_success_validated f d vs x vs' :
  Visit env c m f d vs (SuccessTrue x) vs' ->
  exists v,
    validateFilePathAndOptions env (VString f) (typedOptions c vs d m)
      = SuccessTrue v.
Proof. inversion 1; subst; eauto. Qed.

(** The validation does not look into the visited set. *)
Lemma validate_any_set f vs vs' d v :
  validateFilePathAndOptions env (VString f) (typedOptions c vs d m)
    = SuccessTrue v ->
  exists v',
    validateFilePathAndOptions env (VString f) (typedOptions c vs' d m)
      = SuccessTrue v'.
Proof.
  rewrite !validate_typed.
  destruct (d >? m)%Z; [discriminate|].
  destruct (negb _); [discriminate|].
  destruct (getSourceCodeFromFilePath env f) as [sc|]; [|discriminate].
  destruct (ast sc); [eauto|discriminate].
Qed.

Lemma Reaches_cons f p g :
  In p (references env c f) -> Reaches env c p g -> Reaches env c f g.
Proof.
  intros Hp (n & Hn). induction Hn as [|n g h _ IH Hh].
  - exists 1%nat. econstructor; [constructor|assumption].
  - destruct IH as (k & Hk). exists (S k). econstructor; eauto.
Qed.

(** On typed arguments the validation fails in one of three ways. *)
Lemma validate_typed_failure f vs d errors :
  validateFilePathAndOptions env (VString f) (typedOptions c vs d m)
    = SuccessFalse errors ->
  errors = depthExceededErrors m f \/ errors = fileNotFoundErrors f \/
  errors = parseFailedErrors f.
Proof.
  rewrite validate_typed.
  destruct (d >? m)%Z; [intros H; injection H as <-; auto|].
  destruct (negb _); [intros H; injection H as <-; auto|].
  destruct (getSourceCodeFromFilePath env f) as [sc|];
    [|intros H; injection H as <-; auto].
  destruct (ast sc); [discriminate|intros H; injection H as <-; auto].
Qed.

(** A failure is the failure of the validation of a file that the file
    of the call reaches. *)
Lemma Visit_failure_kind :
  (forall f d vs r vs', Visit env c m f d vs r vs' ->
     forall errors, r = SuccessFalse errors ->
     exists g, Reaches env c f g /\
       (errors = depthExceededErrors m g \/ errors = fileNotFoundErrors g \/
        errors = parseFailedErrors g)) /\
  (forall d l vs r vs', Scan env c m d l vs r vs' ->
     forall errors, r = SuccessFalse errors ->
     exists p g, In p l /\ Reaches env c p g /\
       (errors = depthExceededErrors m g \/ errors = fileNotFoundErrors g \/
        errors = parseFailedErrors g)).
Proof.
  apply Visit_Scan_mutind; intros; try discriminate.
  - injection H0 as <-. exists f. split; [exists 0%nat; constructor|].
    eapply validate_typed_failure; eauto.
  - destruct (H2 errors H3) as (p & g & Hp & Hr & Hk).
    exists g. split; [|assumption]. eapply Reaches_cons; eauto.
  - destruct (H0 errors0 H1) as (g & Hr & Hk).
    exists p, g. split; [now left|]. auto.
  - destruct (H2 errors H3) as (q & g & Hq & Hr & Hk).
    exists q, g. split; [now right|]. auto.
Qed.

End GivenVisitedSet.

(** X1: a successful call on a visited set given by the caller returns
    that set and, added to it, exactly the files that its file reaches
    through files outside the given set: what was visited before is not
    explored again, and nothing else is left out. *)
Theorem given_visited_set_prunes :
  forall env fuel f c vs d m vs' store,
    findAllImports env fuel (VString f) (typedOptions c vs d m)
      = Some (SuccessTrue vs', store) ->
    (exists new, vs' = (vs ++ new)%list) /\
    forall g, In g vs' <-> In g vs \/ ReachesOutside env c vs f g.
Proof.
  intros env fuel f c vs d m vs' store Hrun.
  apply findAllImports_Visit in Hrun as (w & -> & HV).
  pose proof (proj1 (Visit_payload env c m) _ _ _ _ _ HV vs' eq_refl) as <-.
  split; [exact (proj1 (Visit_extends env c m) _ _ _ _ _ HV)|].
  destruct (proj1 (Visit_closed env c m) _ _ _ _ _ HV vs' eq_refl) as (Hf & Hcl).
  destruct (proj1 (Visit_extends env c m) _ _ _ _ _ HV) as (new & Hnew).
  intros g. split.
  - exact (proj1 (Visit_outside env c m) _ _ _ _ _ HV g).
  - intros [Hin|Hr].
    + rewrite Hnew. apply in_or_app. now left.
    + induction Hr as [f _|f g h Hr' IH Hh _]; [assumption|].
      apply (Hcl g); auto. now apply ReachesOutside_end in Hr'.
Qed.

(** With [b] given as visited, the call on [a] adds [a] and [c] only. *)
Lemma given_visited_set_prunes_witness :
  (exists new, ["/p/b.js"; "/p/a.js"; "/p/c.js"] = (["/p/b.js"] ++ new)%list) /\
  (In "/p/c.js" ["/p/b.js"; "/p/a.js"; "/p/c.js"] <->
   In "/p/c.js" ["/p/b.js"] \/
   ReachesOutside diamondEnv "/p" ["/p/b.js"] "/p/a.js" "/p/c.js").
Proof.
  destruct (given_visited_set_prunes diamondEnv 3 "/p/a.js" "/p" ["/p/b.js"]
              0 100 ["/p/b.js"; "/p/a.js"; "/p/c.js"]
              (setOf ["/p/b.js"; "/p/a.js"; "/p/c.js"]) eq_refl) as (H1 & H2).
  split; [exact H1|exact (H2 "/p/c.js")].
Defined.

(** X2: calling again on the same file with the visited set that a
    successful call returned gives that set back after one frame, without
    scanning anything. *)
Theorem second_call_returns_at_once :
  forall env fuel f c vs d m vs' store,
    findAllImports env fuel (VString f) (typedOptions c vs d m)
      = Some (SuccessTrue vs', store) ->
    forall fuel',
      findAllImports env (S fuel') (VString f) (typedOptions c vs' d m)
        = Some (SuccessTrue vs', setOf vs').
Proof.
  intros env fuel f c vs d m vs' store Hrun fuel'.
  apply findAllImports_Visit in Hrun as (w & -> & HV).
  pose proof (proj1 (Visit_payload env c m) _ _ _ _ _ HV vs' eq_refl) as <-.
  destruct (proj1 (Visit_closed env c m) _ _ _ _ _ HV vs' eq_refl) as (Hf & _).
  destruct (Visit_success_validated env c m _ _ _ _ _ HV) as (v & Hv).
  destruct (validate_any_set env c m f vs vs' d v Hv) as (v' & Hv').
  rewrite findAllImports_typed, Hv'.
  apply has_In in Hf. now rewrite Hf.
Qed.

(** The diamond, visited a second time. *)
Lemma second_call_returns_at_once_witness :
  findAllImports diamondEnv 1 (VString "/p/a.js")
    (typedOptions "/p" ["/p/a.js"; "/p/b.js"; "/p/c.js"] 0 100)
  = Some (SuccessTrue ["/p/a.js"; "/p/b.js"; "/p/c.js"],
          setOf ["/p/a.js"; "/p/b.js"; "/p/c.js"]).
Proof.
  apply (second_call_returns_at_once diamondEnv 3 "/p/a.js" "/p" [] 0 100
           ["/p/a.js"; "/p/b.js"; "/p/c.js"]
           (setOf ["/p/a.js"; "/p/b.js"; "/p/c.js"]) eq_refl 0%nat).
Defined.

(** What a call adds was not in the visited set. *)
Lemma Visit_adds_fresh env c m :
  (forall f d vs r vs', Visit env c m f d vs r vs' ->
     forall new, vs' = (vs ++ new)%list -> forall g, In g new -> ~ In g vs) /\
  (forall d l vs r vs', Scan env c m d l vs r vs' ->
     forall new, vs' = (vs ++ new)%list -> forall g, In g new -> ~ In g vs).
Proof.
  apply Visit_Scan_mutind; intros.
  - rewrite <- (app_nil_r vs) in H0 at 1. apply app_inv_head in H0.
    subst new. destruct H1.
  - rewrite <- (app_nil_r vs) in H1 at 1. apply app_inv_head in H1.
    subst new. destruct H2.
  - destruct (proj2 (Visit_extends env c m) _ _ _ _ _ H1) as (n2 & Hn2).
    rewrite Hn2, <- app_assoc in H3. apply app_inv_head in H3. subst new.
    destruct H4 as [<-|Hg]; [assumption|].
    intros Hin. apply (H2 n2 Hn2 g Hg). apply in_or_app. now left.
  - rewrite <- (app_nil_r vs) in H at 1. apply app_inv_head in H.
    subst new. destruct H0.
  - eauto.
  - destruct (proj1 (Visit_extends env c m) _ _ _ _ _ H) as (n1 & Hn1).
    destruct (proj2 (Visit_extends env c m) _ _ _ _ _ H1) as (n2 & Hn2).
    rewrite Hn2, Hn1, <- app_assoc in H3. apply app_inv_head in H3. subst new.
    apply in_app_or in H4 as [Hg|Hg]; [now apply (H0 n1 Hn1)|].
    intros Hin. apply (H2 n2 Hn2 g Hg). rewrite Hn1. apply in_or_app. now left.
Qed.

(** X3: whatever a call returns, a success or a failure, the visited set
    it leaves extends the one it was given, and every file it added was
    not in the given set, exists, parses, and is reached from the file of
    the call through files that were outside the given set. *)
Theorem visited_set_gains_parsed_reachable_files :
  forall env fuel f c vs d m r store,
    findAllImports env fuel (VString f) (typedOptions c vs d m)
      = Some (r, store) ->
    exists new,
      store = setOf (vs ++ new) /\
      forall g, In g new ->
        ~ In g vs /\ parsedBody env g <> None /\
        ReachesOutside env c vs f g.
Proof.
  intros env fuel f c vs d m r store Hrun.
  apply findAllImports_Visit in Hrun as (vs' & -> & HV).
  destruct (proj1 (Visit_extends env c m) _ _ _ _ _ HV) as (new & ->).
  exists new. split; [reflexivity|].
  intros g Hg.
  assert (Hin : In g (vs ++ new)) by (apply in_or_app; now right).
  pose proof (proj1 (Visit_adds_fresh env c m) _ _ _ _ _ HV new eq_refl g Hg)
    as Hfresh.
  split; [assumption|]. split.
  - destruct (proj1 (Visit_adds_parsed env c m) _ _ _ _ _ HV g Hin); tauto.
  - destruct (proj1 (Visit_outside env c m) _ _ _ _ _ HV g Hin); tauto.
Qed.

(** The call that fails on the missing [y] has added [x]. *)
Lemma visited_set_gains_parsed_reachable_files_witness :
  exists new,
    setOf ["/p/x.js"] = setOf ([] ++ new) /\
    forall g, In g new ->
      ~ In g [] /\ parsedBody missingEnv g <> None /\
      ReachesOutside missingEnv "/p" [] "/p/x.js" g.
Proof.
  apply (visited_set_gains_parsed_reachable_files missingEnv 2 "/p/x.js" "/p"
           [] 0 100 (fileNotFound "/p/y.js") (setOf ["/p/x.js"]) eq_refl).
Defined.

(** X4: a call on typed arguments (so every call below the first one)
    fails in three ways only: its errors are those of the depth test, of
    the existence test or of the parse, on a file that the file of the
    call reaches. *)
Theorem typed_call_fails_in_three_ways :
  forall env fuel f c vs d m errors store,
    findAllImports env fuel (VString f) (typedOptions c vs d m)
      = Some (SuccessFalse errors, store) ->
    exists g,
      Reaches env c f g /\
      (errors = depthExceededErrors m g \/ errors = fileNotFoundErrors g \/
       errors = parseFailedErrors g).
Proof.
  intros env fuel f c vs d m errors store Hrun.
  apply findAllImports_Visit in Hrun as (vs' & -> & HV).
  exact (proj1 (Visit_failure_kind env c m) _ _ _ _ _ HV errors eq_refl).
Qed.

(** The failure of the call on [x] is that of the missing [y]. *)
Lemma typed_call_fails_in_three_ways_witness :
  exists g,
    Reaches missingEnv "/p" "/p/x.js" g /\
    (fileNotFoundErrors "/p/y.js" = depthExceededErrors 100 g \/
     fileNotFoundErrors "/p/y.js" = fileNotFoundErrors g \/
     fileNotFoundErrors "/p/y.js" = parseFailedErrors g).
Proof.
  apply (typed_call_fails_in_three_ways missingEnv 2 "/p/x.js" "/p" [] 0 100
           (fileNotFoundErrors "/p/y.js") (setOf ["/p/x.js"]) eq_refl).
Defined.

(** ** What the scan looks at *)

(** X5: in each of the three loops, the statements that do not make the
    scan recurse (no test holds, or the resolver does not resolve the
    import path, as for a package name) change nothing: the scan of a
    body is the scan of its resolving nodes (and, in the callback
    variants, of its import expression nodes). *)
Theorem scan_passes_over_unresolved :
  (forall env self f c d m nodes vs,
     scanBody env self nodes (makeProcessImportSettings env f c vs d m)
     = scanBody env self
         (filter (resolves env (path_dirname env f) c) nodes)
         (makeProcessImportSettings env f c vs d m)) /\
  (forall env A self f c d m cb nodes vs acc heap,
     scanBodySync env A self nodes cb acc
       (makeProcessImportSettings env f c vs d m) heap
     = scanBodySync env A self
         (filter (fun n => nodeIsImportExpression n ||
                           resolves env (path_dirname env f) c n) nodes)
         cb acc (makeProcessImportSettings env f c vs d m) heap) /\
  (forall env A self f c d m cb nodes vs acc heap,
     scanBodyAsync env A self nodes cb acc
       (makeProcessImportSettings env f c vs d m) heap
     = scanBodyAsync env A self
         (filter (fun n => nodeIsImportExpression n ||
                           resolves env (path_dirname env f) c n) nodes)
         cb acc (makeProcessImportSettings env f c vs d m) heap).
Proof.
  assert (Hsync : forall env A self f c d m cb nodes vs acc heap,
     scanBodySync env A self nodes cb acc
       (makeProcessImportSettings env f c vs d m) heap
     = scanBodySync env A self
         (filter (fun n => nodeIsImportExpression n ||
                           resolves env (path_dirname env f) c n) nodes)
         cb acc (makeProcessImportSettings env f c vs d m) heap).
  { intros env A self f c d m cb.
    induction nodes as [|node rest IH]; intros vs acc heap; [reflexivity|].
    cbn [filter]. unfold resolves at 1. rewrite scanBodySync_cons.
    destruct (nodeIsImportExpression node) eqn:Ei.
    - cbn [orb]. now rewrite scanBodySync_cons, Ei.
    - cbn [orb].
      destruct (childOf _ _ _ node) as [p|] eqn:E; [|apply IH].
      rewrite scanBodySync_cons, Ei, E.
      destruct (self _ _ _ _) as [[[[[vs' acc']|errors]|err] h]|]; auto. }
  split; [|split; [exact Hsync|exact Hsync]].
  intros env self f c d m.
  induction nodes as [|node rest IH]; intros vs; [reflexivity|].
  cbn [filter]. unfold resolves at 1. rewrite scanBody_cons.
  destruct (childOf _ _ _ node) as [p|] eqn:E; [|apply IH].
  rewrite scanBody_cons, E.
  destruct (self _ _) as [[[vs'|errors] store]|]; auto.
Qed.

(** X6: a body node passes at most one of the three tests, so it makes
    the scan recurse at most once; the require test holds exactly for an
    expression statement that calls the identifier [require] with a
    literal as first argument, so that a required module bound by a
    declaration, a call through a member, or a computed argument is not
    followed. *)
Theorem node_tests_are_exclusive :
  (forall node,
     (nodeIsImportDeclaration node = true ->
        nodeIsImportExpression node = false /\ nodeIsRequireCall node = false) /\
     (nodeIsImportExpression node = true ->
        nodeIsImportDeclaration node = false /\ nodeIsRequireCall node = false) /\
     (nodeIsRequireCall node = true ->
        nodeIsImportDeclaration node = false /\
        nodeIsImportExpression node = false)) /\
  (forall node,
     nodeIsRequireCall node = true <->
     exists v rest,
       node = ExpressionStatement
                (CallExpression (Identifier "require") (Literal v :: rest))) /\
  (forall node v,
     importPathOf node = Some v <->
     node = ImportDeclaration v \/ node = ImportExpressionNode v \/
     exists rest,
       node = ExpressionStatement
                (CallExpression (Identifier "require") (Literal v :: rest))) /\
  (forall k, importPathOf (OtherStatement k) = None).
Proof.
  assert (Hreq : forall node,
     nodeIsRequireCall node = true <->
     exists v rest,
       node = ExpressionStatement
                (CallExpression (Identifier "require") (Literal v :: rest))).
  { intros node. split.
    - destruct node as [s|e|s|k]; try discriminate.
      + destruct e as [v|n|callee args| | | | |]; try discriminate.
        destruct callee as [|n| | | | | |]; try discriminate.
        destruct args as [|a args]; [cbn; now rewrite andb_false_r|].
        destruct a; cbn; rewrite ?andb_false_r; try discriminate.
        rewrite andb_true_r. intros H. apply String.eqb_eq in H. subst n.
        eauto.
      + destruct k; discriminate.
    - intros (v & rest & ->). reflexivity. }
  split; [|split; [exact Hreq|split]].
  - intros node. destruct node as [s|e|s|k].
    + repeat split; try reflexivity; discriminate.
    + repeat split; try reflexivity; discriminate.
    + repeat split; try reflexivity; discriminate.
    + destruct k; repeat split; try reflexivity; discriminate.
  - intros node v. unfold importPathOf. split.
    + destruct node as [s|e|s|k].
      * cbn. intros H. injection H as ->. auto.
      * change (nodeIsImportDeclaration (ExpressionStatement e)) with false.
        change (nodeIsImportExpression (ExpressionStatement e)) with false.
        cbv iota.
        destruct (nodeIsRequireCall (ExpressionStatement e)) eqn:E;
          [|discriminate].
        apply Hreq in E as (w & rest & E). injection E as ->.
        cbn. intros H. injection H as ->. eauto.
      * cbn. intros H. injection H as ->. auto.
      * destruct k; discriminate.
    + intros [->|[->|(rest & ->)]]; reflexivity.
  - intros k. destruct k; reflexivity.
Qed.

(** ** The callback variants and the plain one *)

Section CallbackAndPlain.

Variable env : Env.
Variable A : Type.

Lemma findAllImportsWithCallbackSync_defaults fuel filePath cfg o trace :
  findAllImportsWithCallbackSync env A fuel filePath cfg (withDefaults env o) trace
  = findAllImportsWithCallbackSync env A fuel filePath cfg o trace.
Proof.
  destruct fuel; cbn [findAllImportsWithCallbackSync];
    now rewrite ?withDefaults_idem.
Qed.

(** A run of the synchronous variant on any arguments that gets past the
    two validations is a run on typed arguments. *)
Lemma findAllImportsWithCallbackSync_validated fuel filePath cfg options trace
    v cb acc :
  validateFilePathAndOptions env filePath (withDefaults env options)
    = SuccessTrue v ->
  validateCallbackConfig A cfg = SuccessTrue (cb, acc) ->
  findAllImportsWithCallbackSync env A fuel filePath cfg options trace
  = findAllImportsWithCallbackSync env A fuel (VString (v_filePath v))
      (ConfigObject A (CallbackFunction A cb) acc)
      (typedOptions (v_cwd v) (v_visitedSet v) (v_depth v) (v_maxDepth v))
      trace.
Proof.
  intros Hv Hc. apply validate_success_typed in Hv as (-> & Ho).
  apply validateCallbackConfig_success in Hc as ->.
  now rewrite <- Ho, findAllImportsWithCallbackSync_defaults.
Qed.

Lemma scanBodySync_plain self self0 f c d m cb :
  (forall p acc vs t vs' acc' h,
     self (VString p) (ConfigObject A (CallbackFunction A cb) acc)
       (typedOptions c vs (d + 1) m) t
       = Some (Normal (SuccessTrue (vs', acc')), h) ->
     self0 (VString p) (typedOptions c vs (d + 1) m)
       = Some (SuccessTrue vs', setOf vs')) ->
  forall nodes vs acc heap vs' acc' h',
    scanBodySync env A self nodes cb acc
      (makeProcessImportSettings env f c vs d m) heap
      = Some (Normal (SuccessTrue (vs', acc')), h') ->
    scanBody env self0 nodes (makeProcessImportSettings env f c vs d m)
      = Some (SuccessTrue vs', setOf vs').
Proof.
  intros Hself. induction nodes as [|node rest IH];
    intros vs acc heap vs' acc' h'.
  - cbn. intros H. now injection H as <- _ _.
  - rewrite scanBodySync_cons, scanBody_cons.
    destruct (nodeIsImportExpression node); [discriminate|].
    destruct (childOf _ _ _ node) as [p|]; [|apply IH].
    destruct (self _ _ _ _) as [[[[[vs1 acc1]|errors]|err] h]|] eqn:E;
      try discriminate.
    apply Hself in E. rewrite E. apply IH.
Qed.

Lemma findAllImportsWithCallbackSync_plain fuel :
  forall f cb acc c vs d m trace vs' acc' heap,
    findAllImportsWithCallbackSync env A fuel (VString f)
      (ConfigObject A (CallbackFunction A cb) acc)
      (typedOptions c vs d m) trace
      = Some (Normal (SuccessTrue (vs', acc')), heap) ->
    findAllImports env fuel (VString f) (typedOptions c vs d m)
      = Some (SuccessTrue vs', setOf vs').
Proof.
  induction fuel as [|fuel IH]; intros f cb acc c vs d m trace vs' acc' heap;
    [discriminate|].
  rewrite findAllImportsWithCallbackSync_typed, findAllImports_typed. cbv zeta.
  destruct (validateFilePathAndOptions _ _ _) as [v|errors]; [|discriminate].
  destruct (visitedSetHasPreviousVisit vs f).
  { intros H. now injection H as <- _ _. }
  destruct (thrown A _) as [e|].
  { intros H. injection H as H _. now apply caught_not_success in H. }
  apply scanBodySync_plain. intros p acc0 vs0 t vs1 acc1 h. apply IH.
Qed.

End CallbackAndPlain.

(** X7: when a callback variant succeeds, [findAllImports] on the same
    file path and options, with the same fuel, succeeds with the same
    visited set: the callback does not change which files are visited. *)
Theorem callback_variants_visit_the_same_files :
  forall env A fuel filePath cfg options trace vs' acc' heap,
    findAllImportsWithCallbackSync env A fuel filePath cfg options trace
      = Some (Normal (SuccessTrue (vs', acc')), heap) \/
    findAllImportsWithCallbackAsync env A fuel filePath cfg options trace
      = Some (Normal (SuccessTrue (vs', acc')), heap) ->
    findAllImports env fuel filePath options
      = Some (SuccessTrue vs', setOf vs').
Proof.
  intros env A fuel filePath cfg options trace vs' acc' heap H.
  assert (Hrun :
    findAllImportsWithCallbackSync env A fuel filePath cfg options trace
    = Some (Normal (SuccessTrue (vs', acc')), heap))
    by (destruct H as [H|H]; exact H).
  clear H. destruct fuel as [|fuel]; [discriminate|].
  pose proof Hrun as H0. cbn [findAllImportsWithCallbackSync] in H0.
  destruct (validateFilePathAndOptions env filePath (withDefaults env options))
    as [v|errors] eqn:E; [|discriminate].
  destruct (validateCallbackConfig A cfg) as [[cb acc]|errors] eqn:Ec;
    [|discriminate].
  clear H0.
  rewrite (findAllImportsWithCallbackSync_validated env A _ _ _ _ _ v cb acc E Ec)
    in Hrun.
  apply findAllImportsWithCallbackSync_plain in Hrun.
  apply validate_success_typed in E as (-> & Ho).
  now rewrite <- findAllImports_defaults, Ho.
Qed.

(** The diamond with the recording callback. *)
Lemma callback_variants_visit_the_same_files_witness :
  findAllImports diamondEnv 3 (VString "/p/a.js") noOptions
  = Some (SuccessTrue ["/p/a.js"; "/p/b.js"; "/p/c.js"],
          setOf ["/p/a.js"; "/p/b.js"; "/p/c.js"]).
Proof.
  apply (callback_variants_visit_the_same_files diamondEnv (list string) 3
           (VString "/p/a.js")
           (ConfigObject _ (CallbackFunction _ recordFile) [])
           noOptions [] ["/p/a.js"; "/p/b.js"; "/p/c.js"]
           ["/p/a.js"; "/p/b.js"; "/p/c.js"]
           {| h_visitedSet := setOf ["/p/a.js"; "/p/b.js"; "/p/c.js"];
              h_callbackConfig :=
                ConfigObject _ (CallbackFunction _ recordFile)
                  ["/p/a.js"; "/p/b.js"; "/p/c.js"];
              h_trace :=
                [ {| inv_filePath := "/p/a.js"; inv_visitedSet := ["/p/a.js"];
                     inv_accumulator := []; inv_thrown := None |};
                  {| inv_filePath := "/p/b.js";
                     inv_visitedSet := ["/p/a.js"; "/p/b.js"];
                     inv_accumulator := ["/p/a.js"]; inv_thrown := None |};
                  {| inv_filePath := "/p/c.js";
                     inv_visitedSet := ["/p/a.js"; "/p/b.js"; "/p/c.js"];
                     inv_accumulator := ["/p/a.js"; "/p/b.js"];
                     inv_thrown := None |} ] |}).
  left. reflexivity.
Defined.

(** ** The accumulator *)

Section Threading.

Variable env : Env.
Variable A : Type.
Variable cb : Callback A.

Lemma validate_typed_sourceCode f c vs d m v :
  validateFilePathAndOptions env (VString f) (typedOptions c vs d m)
    = SuccessTrue v ->
  getSourceCodeFromFilePath env f = Some (v_sourceCode v).
Proof.
  rewrite validate_typed.
  destruct (d >? m)%Z; [discriminate|].
  destruct (negb _); [discriminate|].
  destruct (getSourceCodeFromFilePath env f) as [sc|]; [|discriminate].
  destruct (ast sc); [|discriminate].
  intros H. now injection H as <-.
Qed.

Lemma replay_app acc l1 l2 :
  replay env A cb acc (l1 ++ l2)
  = replay env A cb (replay env A cb acc l1) l2.
Proof. apply fold_left_app. Qed.

Lemma invocations_app l1 : forall vs acc l2,
  invocations env A cb vs acc (l1 ++ l2)
  = (invocations env A cb vs acc l1 ++
     invocations env A cb (vs ++ l1) (replay env A cb acc l1) l2)%list.
Proof.
  induction l1 as [|f l1 IH]; intros vs acc l2; cbn.
  - now rewrite app_nil_r.
  - rewrite IH, <- app_assoc. reflexivity.
Qed.

Lemma Threads_here vs acc trace completion heap :
  h_trace A heap = trace ->
  h_visitedSet A heap = setOf vs ->
  h_callbackConfig A heap = ConfigObject A (CallbackFunction A cb) acc ->
  (forall vs' acc',
     completion = Normal (SuccessTrue (vs', acc')) -> vs' = vs /\ acc' = acc) ->
  Threads env A cb vs acc trace completion heap.
Proof.
  intros Ht Hs Hc Hp. exists []. cbn. rewrite !app_nil_r. auto.
Qed.

Lemma Threads_after vs acc trace files completion heap :
  Threads env A cb (vs ++ files) (replay env A cb acc files)
    (trace ++ invocations env A cb vs acc files) completion heap ->
  Threads env A cb vs acc trace completion heap.
Proof.
  intros (files2 & Ht & Hs & Hc & Hp).
  exists (files ++ files2)%list.
  rewrite invocations_app, replay_app, (app_assoc vs files files2).
  rewrite <- app_assoc in Ht. auto.
Qed.

Lemma scanBodySync_threads self f c d m :
  RunThreads env A cb c m self ->
  forall nodes vs acc heap completion heap',
    h_visitedSet A heap = setOf vs ->
    h_callbackConfig A heap = ConfigObject A (CallbackFunction A cb) acc ->
    scanBodySync env A self nodes cb acc
      (makeProcessImportSettings env f c vs d m) heap
      = Some (completion, heap') ->
    Threads env A cb vs acc (h_trace A heap) completion heap'.
Proof.
  intros Hself. induction nodes as [|node rest IH];
    intros vs acc heap completion heap' Hs Hc.
  - cbn. intros H. injection H as <- <-.
    apply Threads_here; auto. intros vs' acc' E. now injection E as <- <-.
  - rewrite scanBodySync_cons.
    destruct (nodeIsImportExpression node).
    { intros H. injection H as <- <-. apply Threads_here; auto. discriminate. }
    destruct (childOf _ _ _ node) as [p|]; [|now apply IH].
    destruct (self _ _ _ _) as [[[[[vs1 acc1]|errors]|err] h]|] eqn:E;
      try discriminate.
    + intros H. apply Hself in E.
      destruct E as (files & Ht & Hs1 & Hc1 & Hp).
      destruct (Hp vs1 acc1 eq_refl) as (-> & ->).
      apply IH in H; auto. rewrite Ht in H. now apply Threads_after in H.
    + intros H. injection H as <- <-. now apply Hself in E.
    + intros H. injection H as <- <-. now apply Hself in E.
Qed.

Lemma findAllImportsWithCallbackSync_threads c m fuel :
  RunThreads env A cb c m (findAllImportsWithCallbackSync env A fuel).
Proof.
  induction fuel as [|fuel IH];
    intros f acc vs d trace completion heap; [discriminate|].
  rewrite findAllImportsWithCallbackSync_typed. cbv zeta.
  destruct (validateFilePathAndOptions _ _ _) as [v|errors] eqn:E.
  2:{ intros H. injection H as <- <-. apply Threads_here; auto. discriminate. }
  destruct (visitedSetHasPreviousVisit vs f) eqn:Hseen.
  { intros H. injection H as <- <-. apply Threads_here; auto.
    intros vs' acc' E'. now injection E' as <- <-. }
  rewrite update_fresh by assumption.
  apply validate_typed_sourceCode in E.
  assert (Hinv : cb f (v_sourceCode v) acc = invoke env A cb f acc)
    by (unfold invoke; now rewrite E).
  rewrite Hinv. intros H.
  apply (Threads_after vs acc trace [f]). cbn [invocations replay fold_left].
  destruct (thrown A (invoke env A cb f acc)) as [e|] eqn:Et.
  - injection H as <- <-. apply Threads_here; auto.
    intros vs' acc' E'. now apply caught_not_success in E'.
  - apply (scanBodySync_threads _ _ _ _ _ IH) in H; auto.
Qed.

End Threading.

(** X8: a run of a callback variant on typed arguments and a
    configuration with a function goes through the files of one list, in
    order: the visited set it leaves is the given one followed by these
    files; the callback was invoked on exactly these files, once each, in
    that order, each invocation seeing the set with its own file last and
    the accumulator as the previous invocation left it; the accumulator
    it leaves, and returns on success, is the result of running the
    callback on the files in that order.  An already visited file gives
    the empty list. *)
Theorem callback_threads_the_accumulator :
  forall env A cb fuel f acc c vs d m trace completion heap,
    findAllImportsWithCallbackSync env A fuel (VString f)
      (ConfigObject A (CallbackFunction A cb) acc) (typedOptions c vs d m)
      trace = Some (completion, heap) \/
    findAllImportsWithCallbackAsync env A fuel (VString f)
      (ConfigObject A (CallbackFunction A cb) acc) (typedOptions c vs d m)
      trace = Some (completion, heap) ->
    exists files,
      h_trace A heap = (trace ++ invocations env A cb vs acc files)%list /\
      h_visitedSet A heap = setOf (vs ++ files) /\
      h_callbackConfig A heap
        = ConfigObject A (CallbackFunction A cb) (replay env A cb acc files) /\
      forall vs' acc',
        completion = Normal (SuccessTrue (vs', acc')) ->
        vs' = (vs ++ files)%list /\ acc' = replay env A cb acc files.
Proof.
  intros env A cb fuel f acc c vs d m trace completion heap H.
  apply (findAllImportsWithCallbackSync_threads env A cb c m fuel f acc vs d).
  destruct H as [H|H]; exact H.
Qed.

(** The recording callback on the diamond. *)
Lemma callback_threads_the_accumulator_witness :
  exists files,
    [ {| inv_filePath := "/p/a.js"; inv_visitedSet := ["/p/a.js"];
         inv_accumulator := []; inv_thrown := None |};
      {| inv_filePath := "/p/b.js"; inv_visitedSet := ["/p/a.js"; "/p/b.js"];
         inv_accumulator := ["/p/a.js"]; inv_thrown := None |};
      {| inv_filePath := "/p/c.js";
         inv_visitedSet := ["/p/a.js"; "/p/b.js"; "/p/c.js"];
         inv_accumulator := ["/p/a.js"; "/p/b.js"]; inv_thrown := None |} ]
    = ([] ++ invocations diamondEnv (list string) recordFile [] [] files)%list /\
    setOf ["/p/a.js"; "/p/b.js"; "/p/c.js"] = setOf ([] ++ files) /\
    ConfigObject _ (CallbackFunction _ recordFile)
      ["/p/a.js"; "/p/b.js"; "/p/c.js"]
    = ConfigObject _ (CallbackFunction _ recordFile)
        (replay diamondEnv (list string) recordFile [] files) /\
    forall vs' acc',
      Normal (SuccessTrue (["/p/a.js"; "/p/b.js"; "/p/c.js"],
                           ["/p/a.js"; "/p/b.js"; "/p/c.js"]))
      = Normal (SuccessTrue (vs', acc')) ->
      vs' = ([] ++ files)%list /\
      acc' = replay diamondEnv (list string) recordFile [] files.
Proof.
  apply (callback_threads_the_accumulator diamondEnv (list string) recordFile
           3 "/p/a.js" [] "/p" [] 0 100 []
           (Normal (SuccessTrue (["/p/a.js"; "/p/b.js"; "/p/c.js"],
                                 ["/p/a.js"; "/p/b.js"; "/p/c.js"])))
           {| h_visitedSet := setOf ["/p/a.js"; "/p/b.js"; "/p/c.js"];
              h_callbackConfig :=
                ConfigObject _ (CallbackFunction _ recordFile)
                  ["/p/a.js"; "/p/b.js"; "/p/c.js"];
              h_trace :=
                [ {| inv_filePath := "/p/a.js"; inv_visitedSet := ["/p/a.js"];
                     inv_accumulator := []; inv_thrown := None |};
                  {| inv_filePath := "/p/b.js";
                     inv_visitedSet := ["/p/a.js"; "/p/b.js"];
                     inv_accumulator := ["/p/a.js"]; inv_thrown := None |};
                  {| inv_filePath := "/p/c.js";
                     inv_visitedSet := ["/p/a.js"; "/p/b.js"; "/p/c.js"];
                     inv_accumulator := ["/p/a.js"; "/p/b.js"];
                     inv_thrown := None |} ] |}).
  left. reflexivity.
Defined.

(** ** The callback configuration *)

(** X9: [validateCallbackConfig] accepts exactly an object whose
    [callback] is a function, and hands back that function and the
    accumulator as they are, whatever the accumulator is; a primitive
    value or an array is refused as not being an object, a set, another
    object or a [callback] that is not a function as lacking the
    function.  A callback variant whose file path and options pass their
    validation and whose configuration is refused returns that refusal:
    the file is not inserted in the visited set and the callback is not
    invoked. *)
Theorem invalid_callback_config_is_refused :
  (forall A cfg cb acc,
     validateCallbackConfig A cfg = SuccessTrue (cb, acc) <->
     cfg = ConfigObject A (CallbackFunction A cb) acc) /\
  (forall A p,
     validateCallbackConfig A (ConfigOther A (VPrim p))
     = makeSuccessFalseTypeError
         "ERROR. Invalid callbackConfig format. The callbackConfig should be an object.") /\
  (forall A l,
     validateCallbackConfig A (ConfigOther A (VArray l))
     = makeSuccessFalseTypeError
         "ERROR. Invalid callbackConfig format. The callbackConfig should be an object.") /\
  (forall A cfg,
     (exists l, cfg = ConfigOther A (VSet l)) \/ cfg = ConfigOther A VObject \/
     (exists v acc, cfg = ConfigObject A (CallbackOther A v) acc) ->
     validateCallbackConfig A cfg
     = makeSuccessFalseTypeError
         "ERROR. Invalid callbackConfig.callback format. The callbackConfig.callback should be a function.") /\
  (forall env A fuel filePath cfg options trace v errors,
     validateFilePathAndOptions env filePath (withDefaults env options)
       = SuccessTrue v ->
     validateCallbackConfig A cfg = SuccessFalse errors ->
     findAllImportsWithCallbackSync env A (S fuel) filePath cfg options trace
       = Some (Normal (SuccessFalse errors),
               {| h_visitedSet := visitedSet (withDefaults env options);
                  h_callbackConfig := cfg;
                  h_trace := trace |}) /\
     findAllImportsWithCallbackAsync env A (S fuel) filePath cfg options trace
       = Some (Normal (SuccessFalse errors),
               {| h_visitedSet := visitedSet (withDefaults env options);
                  h_callbackConfig := cfg;
                  h_trace := trace |})).
Proof.
  split; [|split; [|split; [|split]]].
  - intros A cfg cb acc. split.
    + apply validateCallbackConfig_success.
    + intros ->. reflexivity.
  - intros A p. destruct p as [| |b|n|s]; cbn; try reflexivity.
    + now destruct b.
    + now destruct (n =? 0)%Z.
    + now destruct (s =? "").
  - reflexivity.
  - intros A cfg [(l & ->)|[->|(v & acc & ->)]]; reflexivity.
  - intros env A fuel filePath cfg options trace v errors Hv Hc.
    change (findAllImportsWithCallbackAsync env A)
      with (findAllImportsWithCallbackSync env A).
    cbn [findAllImportsWithCallbackSync]. now rewrite Hv, Hc.
Qed.

(** A configuration that is an array, on a file that is there. *)
Lemma invalid_callback_config_is_refused_witness :
  findAllImportsWithCallbackSync diamondEnv (list string) 1
    (VString "/p/a.js") (ConfigOther _ (VArray [])) noOptions []
  = Some (Normal (makeSuccessFalseTypeError
                    "ERROR. Invalid callbackConfig format. The callbackConfig should be an object."),
          {| h_visitedSet := VSet [];
             h_callbackConfig := ConfigOther _ (VArray []);
             h_trace := [] |}).
Proof.
  refine (proj1 (proj2 (proj2 (proj2 (proj2 invalid_callback_config_is_refused)))
                  diamondEnv (list string) 0%nat (VString "/p/a.js")
                  (ConfigOther _ (VArray [])) noOptions [] _ _ _ _)).
  - reflexivity.
  - reflexivity.
Defined.

(** ** How deep the recursion goes *)

Lemma chain_runs_out L ring N c :
  (N + 2 <= L)%nat ->
  forall j k, (k + j = N + 1)%nat ->
    findAllImports (chainEnv L ring) j (VString (chainName k))
      (typedOptions c (chainNames k) (Z.of_nat k) (Z.of_nat N))
    = None.
Proof.
  intros HLN. induction j as [|j IH]; intros k Hk; [reflexivity|].
  rewrite findAllImports_typed.
  destruct (chain_validate L ring k c (chainNames k) N) as (v & -> & Hb);
    [lia|lia|].
  rewrite chain_not_visited, update_fresh by apply chain_not_visited.
  rewrite Hb. replace (k <? L - 1)%nat with true
    by (symmetry; apply Nat.ltb_lt; lia).
  rewrite scanBody_cons, chain_child, <- chainNames_S.
  replace (Z.of_nat k + 1)%Z with (Z.of_nat (S k)) by lia.
  now rewrite IH by lia.
Qed.

(** X10: whatever the files are, a call at a depth [d] under a limit
    [m], both safe integers, returns within [m - d + 2] nested frames,
    the last of which can only fail the depth test; a chain of files
    uses them all: with [maxDepth = N], one frame less than [N + 2] does
    not reach the end of the call on a chain of [N + 2] files. *)
Theorem recursion_is_bounded_by_the_depth_limit :
  (forall env fuel f c vs d m,
     isSafeInteger d = true -> isSafeInteger m = true ->
     (0 < fuel)%nat -> (m - d + 1 < Z.of_nat fuel)%Z ->
     exists r store,
       findAllImports env fuel (VString f) (typedOptions c vs d m)
         = Some (r, store)) /\
  (forall N : nat,
     isSafeInteger (Z.of_nat N) = true ->
     findAllImports (chainEnv (N + 2) false) (N + 1) (VString (chainName 0))
       (maxDepthOnly (Z.of_nat N)) = None).
Proof.
  split.
  - intros env fuel f c vs d m _ _. apply findAllImports_returns_by_depth.
  - intros N _. rewrite <- findAllImports_defaults, maxDepthOnly_defaults.
    exact (chain_runs_out (N + 2) false N "/" ltac:(lia) (N + 1) 0 ltac:(lia)).
Qed.

(** Two frames under [maxDepth = 0]. *)
Lemma recursion_is_bounded_by_the_depth_limit_witness :
  exists r store,
    findAllImports cycleEnv 2 (VString "/p/a.js") (typedOptions "/p" [] 0 0)
      = Some (r, store).
Proof.
  apply (proj1 recursion_is_bounded_by_the_depth_limit cycleEnv 2 "/p/a.js"
           "/p" [] 0%Z 0%Z); [reflexivity|reflexivity|lia|cbn; lia].
Defined.

(** ** The failures of the callback variants *)

Section CallbackFailures.

Variable env : Env.
Variable A : Type.
Variable cb : Callback A.
Variable c : string.
Variable m : Z.

Lemma scanBodySync_failure_typed self f d errors h :
  forall nodes vs acc heap,
    scanBodySync env A self nodes cb acc
      (makeProcessImportSettings env f c vs d m) heap
      = Some (Normal (SuccessFalse errors), h) ->
    exists p acc' vs' t,
      self (VString p) (ConfigObject A (CallbackFunction A cb) acc')
        (typedOptions c vs' (d + 1) m) t
      = Some (Normal (SuccessFalse errors), h).
Proof.
  induction nodes as [|node rest IH]; intros vs acc heap; [discriminate|].
  rewrite scanBodySync_cons.
  destruct (nodeIsImportExpression node); [discriminate|].
  destruct (childOf _ _ _ node) as [p|]; [|apply IH].
  destruct (self _ _ _ _) as [[[[[vs1 acc1]|errs]|err] h1]|] eqn:E;
    try discriminate.
  - apply IH.
  - intros H. injection H as <- <-. eauto.
Qed.

Lemma findAllImportsWithCallbackSync_failure_kind fuel :
  forall f acc vs d trace errors heap,
    findAllImportsWithCallbackSync env A fuel (VString f)
      (ConfigObject A (CallbackFunction A cb) acc) (typedOptions c vs d m)
      trace = Some (Normal (SuccessFalse errors), heap) ->
    exists g,
      errors = depthExceededErrors m g \/ errors = fileNotFoundErrors g \/
      errors = parseFailedErrors g \/
      exists e,
        errors = [ {| type := typeError;
                      message := callbackErrorMessage g e |} ].
Proof.
  induction fuel as [|fuel IH]; intros f acc vs d trace errors heap;
    [discriminate|].
  rewrite findAllImportsWithCallbackSync_typed. cbv zeta.
  destruct (validateFilePathAndOptions _ _ _) as [v|errs] eqn:E.
  2:{ intros H. injection H as <- _. exists f.
      apply validate_typed_failure in E. tauto. }
  destruct (visitedSetHasPreviousVisit vs f); [discriminate|].
  destruct (thrown A _) as [e|].
  - intros H. injection H as H _. apply caught_failure in H as (text & _ & ->).
    exists f. do 3 right. now exists text.
  - intros H.
    apply scanBodySync_failure_typed in H as (p & acc' & vs' & t & H).
    now apply IH in H.
Qed.

End CallbackFailures.

(** X11: with typed arguments and a configuration that has a function, a
    callback variant fails in four ways only: its errors are those of the
    depth test, of the existence test or of the parse on some file, or
    the one error made from what the callback threw on some file; they
    reach the caller as they were made. *)
Theorem callback_variants_fail_in_four_ways :
  forall env A cb fuel f acc c vs d m trace errors heap,
    findAllImportsWithCallbackSync env A fuel (VString f)
      (ConfigObject A (CallbackFunction A cb) acc) (typedOptions c vs d m)
      trace = Some (Normal (SuccessFalse errors), heap) \/
    findAllImportsWithCallbackAsync env A fuel (VString f)
      (ConfigObject A (CallbackFunction A cb) acc) (typedOptions c vs d m)
      trace = Some (Normal (SuccessFalse errors), heap) ->
    exists g,
      errors = depthExceededErrors m g \/ errors = fileNotFoundErrors g \/
      errors = parseFailedErrors g \/
      exists e,
        errors = [ {| type := typeError;
                      message := callbackErrorMessage g e |} ].
Proof.
  intros env A cb fuel f acc c vs d m trace errors heap H.
  apply (findAllImportsWithCallbackSync_failure_kind env A cb c m fuel
           f acc vs d trace errors heap).
  destruct H as [H|H]; exact H.
Qed.

(** The recording callback on [x], which refers to the missing [y]. *)
Lemma callback_variants_fail_in_four_ways_witness :
  exists g,
    fileNotFoundErrors "/p/y.js" = depthExceededErrors 100 g \/
    fileNotFoundErrors "/p/y.js" = fileNotFoundErrors g \/
    fileNotFoundErrors "/p/y.js" = parseFailedErrors g \/
    exists e,
      fileNotFoundErrors "/p/y.js"
      = [ {| type := typeError; message := callbackErrorMessage g e |} ].
Proof.
  apply (callback_variants_fail_in_four_ways missingEnv (list string)
           recordFile 2 "/p/x.js" [] "/p" [] 0 100 []
           (fileNotFoundErrors "/p/y.js")
           {| h_visitedSet := setOf ["/p/x.js"];
              h_callbackConfig :=
                ConfigObject _ (CallbackFunction _ recordFile) ["/p/x.js"];
              h_trace :=
                [ {| inv_filePath := "/p/x.js"; inv_visitedSet := ["/p/x.js"];
                     inv_accumulator := []; inv_thrown := None |} ] |}).
  left. reflexivity.
Defined.

(** ** The visited set *)

(** X12: the two helpers of the visited set agree: after
    [updateVisitedSet] the file is found by [visitedSetHasPreviousVisit],
    no other file is found or lost, a file that was there already
    changes nothing, inserting twice is inserting once, and a set
    without repetition stays so. *)
Theorem visited_set_insert_lookup :
  forall vs f,
    visitedSetHasPreviousVisit (updateVisitedSet vs f) f = true /\
    (forall g, g <> f ->
       visitedSetHasPreviousVisit (updateVisitedSet vs f) g
       = visitedSetHasPreviousVisit vs g) /\
    (visitedSetHasPreviousVisit vs f = true -> updateVisitedSet vs f = vs) /\
    updateVisitedSet (updateVisitedSet vs f) f = updateVisitedSet vs f /\
    (NoDup vs -> NoDup (updateVisitedSet vs f)).
Proof.
  intros vs f.
  assert (Hin : visitedSetHasPreviousVisit (updateVisitedSet vs f) f = true).
  { unfold updateVisitedSet.
    destruct (existsb (String.eqb f) vs) eqn:E; [exact E|].
    apply has_In. apply in_or_app. right. now left. }
  split; [exact Hin|]. split; [|split; [|split]].
  - intros g Hg. unfold updateVisitedSet.
    destruct (existsb (String.eqb f) vs); [reflexivity|].
    unfold visitedSetHasPreviousVisit. rewrite existsb_app. cbn.
    replace (g =? f) with false by (symmetry; now apply String.eqb_neq).
    now rewrite !orb_false_r.
  - unfold updateVisitedSet, visitedSetHasPreviousVisit. now intros ->.
  - unfold updateVisitedSet at 1.
    unfold visitedSetHasPreviousVisit in Hin. now rewrite Hin.
  - intros Hnd. unfold updateVisitedSet.
    destruct (existsb (String.eqb f) vs) eqn:E; [assumption|].
    apply NoDup_app; [assumption|repeat constructor; auto|].
    intros x Hx [<-|[]]. apply has_In in Hx.
    unfold visitedSetHasPreviousVisit in Hx. congruence.
Qed.

(** ** The order of the visited set *)

Lemma split_of_app (T : Type) (pre post n1 n2 : list T) (g : T) :
  (pre ++ g :: post = n1 ++ n2)%list ->
  (exists post1, n1 = (pre ++ g :: post1)%list) \/
  (exists pre2, pre = (n1 ++ pre2)%list /\ n2 = (pre2 ++ g :: post)%list).
Proof.
  intros H. apply app_eq_app in H as (l & [(-> & H)|(-> & H)]).
  - right. eauto.
  - destruct l as [|x l]; cbn in H.
    + right. exists []. rewrite !app_nil_r. auto.
    + injection H as <- _. left. eauto.
Qed.

Lemma Visit_parents_first env c m :
  (forall f d vs r vs', Visit env c m f d vs r vs' ->
     forall new, vs' = (vs ++ new)%list ->
     forall pre g post, new = (pre ++ g :: post)%list ->
       (pre = [] /\ g = f) \/
       exists h, In h pre /\ In g (references env c h)) /\
  (forall d l vs r vs', Scan env c m d l vs r vs' ->
     forall new, vs' = (vs ++ new)%list ->
     forall pre g post, new = (pre ++ g :: post)%list ->
       In g l \/ exists h, In h pre /\ In g (references env c h)).
Proof.
  apply Visit_Scan_mutind; intros.
  - rewrite <- (app_nil_r vs) in H0 at 1. apply app_inv_head in H0.
    subst new. now destruct pre.
  - rewrite <- (app_nil_r vs) in H1 at 1. apply app_inv_head in H1.
    subst new. now destruct pre.
  - destruct (proj2 (Visit_extends env c m) _ _ _ _ _ H1) as (n2 & Hn2).
    rewrite Hn2, <- app_assoc in H3. apply app_inv_head in H3. subst new.
    destruct pre as [|x pre]; cbn in H4; injection H4 as <- H4; [auto|].
    right. destruct (H2 n2 Hn2 pre g post H4) as [Hg|(h & Hh & Hg)].
    + exists f. split; [now left|assumption].
    + exists h. split; [now right|assumption].
  - rewrite <- (app_nil_r vs) in H at 1. apply app_inv_head in H.
    subst new. now destruct pre.
  - destruct (H0 new H1 pre g post H2) as [(_ & ->)|Hh]; [left; now left|auto].
  - destruct (proj1 (Visit_extends env c m) _ _ _ _ _ H) as (n1 & Hn1).
    destruct (proj2 (Visit_extends env c m) _ _ _ _ _ H1) as (n2 & Hn2).
    rewrite Hn2, Hn1, <- app_assoc in H3. apply app_inv_head in H3. subst new.
    symmetry in H4.
    apply split_of_app in H4 as [(post1 & Hp)|(pre2 & -> & Hp)].
    + destruct (H0 n1 Hn1 pre g post1 Hp) as [(_ & ->)|Hh]; [left; now left|auto].
    + destruct (H2 n2 Hn2 pre2 g post Hp) as [Hg|(h & Hh & Hg)].
      * left. now right.
      * right. exists h. split; [apply in_or_app; now right|assumption].
Qed.

(** X13: in the visited set that a call leaves, after the files it was
    given, the file of the call comes first and every other file that
    the call added comes after a file, added by the call too, that
    refers to it: a file is inserted before the files it leads to. *)
Theorem files_are_inserted_before_their_descendants :
  forall env fuel f c vs d m r store,
    findAllImports env fuel (VString f) (typedOptions c vs d m)
      = Some (r, store) ->
    exists new,
      store = setOf (vs ++ new) /\
      forall pre g post, new = (pre ++ g :: post)%list ->
        (pre = [] /\ g = f) \/
        exists h, In h pre /\ In g (references env c h).
Proof.
  intros env fuel f c vs d m r store Hrun.
  apply findAllImports_Visit in Hrun as (vs' & -> & HV).
  destruct (proj1 (Visit_extends env c m) _ _ _ _ _ HV) as (new & ->).
  exists new. split; [reflexivity|].
  exact (proj1 (Visit_parents_first env c m) _ _ _ _ _ HV new eq_refl).
Qed.

(** The order of the diamond. *)
Lemma files_are_inserted_before_their_descendants_witness :
  exists new,
    setOf ["/p/a.js"; "/p/b.js"; "/p/c.js"] = setOf ([] ++ new) /\
    forall pre g post, new = (pre ++ g :: post)%list ->
      (pre = [] /\ g = "/p/a.js") \/
      exists h, In h pre /\ In g (references diamondEnv "/p" h).
Proof.
  apply (files_are_inserted_before_their_descendants diamondEnv 3 "/p/a.js"
           "/p" [] 0 100
           (SuccessTrue ["/p/a.js"; "/p/b.js"; "/p/c.js"])
           (setOf ["/p/a.js"; "/p/b.js"; "/p/c.js"]) eq_refl).
Defined.

(** ** The callback variants return *)

Section CallbackReturns.

Variable env : Env.
Variable A : Type.
Variable cb : Callback A.
Variable c : string.
Variable m : Z.

Lemma scanBodySync_returns self f d :
  (forall p acc vs t,
     exists completion h,
       self (VString p) (ConfigObject A (CallbackFunction A cb) acc)
         (typedOptions c vs (d + 1) m) t = Some (completion, h)) ->
  forall nodes vs acc heap,
    exists completion h,
      scanBodySync env A self nodes cb acc
        (makeProcessImportSettings env f c vs d m) heap
      = Some (completion, h).
Proof.
  intros Hself. induction nodes as [|node rest IH]; intros vs acc heap.
  - cbn. eauto.
  - rewrite scanBodySync_cons.
    destruct (nodeIsImportExpression node); [eauto|].
    destruct (childOf _ _ _ node) as [p|]; [|apply IH].
    destruct (Hself p acc vs (h_trace A heap)) as (completion & h & ->).
    destruct completion as [[[vs1 acc1]|errors]|err]; eauto.
Qed.

Lemma findAllImportsWithCallbackSync_returns_by_depth fuel :
  forall f acc vs d trace,
    (0 < fuel)%nat -> (m - d + 1 < Z.of_nat fuel)%Z ->
    exists completion heap,
      findAllImportsWithCallbackSync env A fuel (VString f)
        (ConfigObject A (CallbackFunction A cb) acc) (typedOptions c vs d m)
        trace = Some (completion, heap).
Proof.
  induction fuel as [|fuel IH]; intros f acc vs d trace Hpos Hfuel; [lia|].
  rewrite findAllImportsWithCallbackSync_typed. cbv zeta.
  destruct (validateFilePathAndOptions _ _ _) as [v|errors] eqn:E; [|eauto].
  destruct (visitedSetHasPreviousVisit vs f); [eauto|].
  destruct (thrown A _); [eauto|].
  apply validate_typed_success in E as (Hd & _).
  apply scanBodySync_returns. intros p acc0 vs0 t. apply IH; lia.
Qed.

(** The visited set bounds the recursion of the callback variants too:
    with [U] a list of all the files that exist, every frame below the
    first one visits a file of [U] that no frame above it has visited. *)
Lemma scanBodySync_returns_on (I : list string -> Prop) self f d :
  (forall p acc vs t, I vs ->
     exists completion h,
       self (VString p) (ConfigObject A (CallbackFunction A cb) acc)
         (typedOptions c vs (d + 1) m) t = Some (completion, h) /\
       forall vs' acc', completion = Normal (SuccessTrue (vs', acc')) -> I vs') ->
  forall nodes vs acc heap, I vs ->
    exists completion h,
      scanBodySync env A self nodes cb acc
        (makeProcessImportSettings env f c vs d m) heap
      = Some (completion, h).
Proof.
  intros Hself. induction nodes as [|node rest IH]; intros vs acc heap HI.
  - cbn. eauto.
  - rewrite scanBodySync_cons.
    destruct (nodeIsImportExpression node); [eauto|].
    destruct (childOf _ _ _ node) as [p|]; [|now apply IH].
    destruct (Hself p acc vs (h_trace A heap) HI) as (completion & h & -> & Hx).
    destruct completion as [[[vs1 acc1]|errors]|err]; eauto.
Qed.

Variable U : list string.
Hypothesis U_complete : forall f, fs_existsSync env f = true -> In f U.

Lemma findAllImportsWithCallbackSync_returns_by_visits fuel :
  forall f acc vs d trace,
    (unvisitedIn U vs < fuel)%nat ->
    exists completion heap,
      findAllImportsWithCallbackSync env A fuel (VString f)
        (ConfigObject A (CallbackFunction A cb) acc) (typedOptions c vs d m)
        trace = Some (completion, heap).
Proof.
  induction fuel as [|fuel IH]; intros f acc vs d trace Hfuel; [lia|].
  rewrite findAllImportsWithCallbackSync_typed. cbv zeta.
  destruct (validateFilePathAndOptions _ _ _) as [v|errors] eqn:E; [|eauto].
  destruct (visitedSetHasPreviousVisit vs f) eqn:Hseen; [eauto|].
  destruct (thrown A _); [eauto|].
  rewrite update_fresh by assumption.
  assert (Hex : fs_existsSync env f = true).
  { apply validate_typed_success in E as (_ & Hb & _).
    unfold parsedBody in Hb. destruct (fs_existsSync env f); congruence. }
  apply (scanBodySync_returns_on (fun x => (unvisitedIn U x < fuel)%nat)).
  - intros p acc0 vs1 t H1.
    destruct (IH p acc0 vs1 (d + 1)%Z t H1) as (completion & h & Hr).
    exists completion, h. split; [assumption|]. intros vs' acc' ->.
    apply findAllImportsWithCallbackSync_threads in Hr
      as (files & _ & _ & _ & Hp).
    destruct (Hp vs' acc' eq_refl) as (-> & _).
    eapply Nat.le_lt_trans; [|exact H1].
    apply unvisitedIn_mono. apply incl_appl, incl_refl.
  - apply has_not_In in Hseen.
    pose proof (unvisitedIn_less U vs f (U_complete f Hex) Hseen). lia.
Qed.

End CallbackReturns.

(** X14: the two callback variants complete too, with a callback whose
    invocations complete: they return a result or throw.  On typed
    arguments whose depth [d] and limit [m] are safe integers they do so
    within [m - d + 2] nested frames, whatever the files are; when the
    files that exist are finitely many (listed in [U]), they do so on
    any arguments within as many nested frames as there are files, plus
    one. *)
Theorem callback_variants_return :
  (forall env A fuel cb f acc c vs d m trace,
     isSafeInteger d = true -> isSafeInteger m = true ->
     (0 < fuel)%nat -> (m - d + 1 < Z.of_nat fuel)%Z ->
     exists completion heap,
       findAllImportsWithCallbackSync env A fuel (VString f)
         (ConfigObject A (CallbackFunction A cb) acc) (typedOptions c vs d m)
         trace = Some (completion, heap) /\
       findAllImportsWithCallbackAsync env A fuel (VString f)
         (ConfigObject A (CallbackFunction A cb) acc) (typedOptions c vs d m)
         trace = Some (completion, heap)) /\
  (forall env A U,
     (forall f, fs_existsSync env f = true -> In f U) ->
     forall filePath cfg options trace fuel,
       (List.length U < fuel)%nat ->
       exists completion heap,
         findAllImportsWithCallbackSync env A fuel filePath cfg options trace
           = Some (completion, heap) /\
         findAllImportsWithCallbackAsync env A fuel filePath cfg options trace
           = Some (completion, heap)).
Proof.
  split.
  - intros env A fuel cb f acc c vs d m trace _ _ Hpos Hfuel.
    destruct (findAllImportsWithCallbackSync_returns_by_depth env A cb c m fuel
                f acc vs d trace Hpos Hfuel) as (completion & heap & H).
    exists completion, heap. split; exact H.
  - intros env A U HU filePath cfg options trace fuel Hfuel.
    change (findAllImportsWithCallbackAsync env A)
      with (findAllImportsWithCallbackSync env A).
    destruct fuel as [|fuel]; [lia|].
    destruct (validateFilePathAndOptions env filePath (withDefaults env options))
      as [v|errors] eqn:E.
    2:{ cbn [findAllImportsWithCallbackSync]. rewrite E. eauto. }
    destruct (validateCallbackConfig A cfg) as [[cb acc]|errors] eqn:Ec.
    2:{ cbn [findAllImportsWithCallbackSync]. rewrite E, Ec. eauto. }
    destruct (findAllImportsWithCallbackSync_returns_by_visits env A cb
                (v_cwd v) (v_maxDepth v) U HU (S fuel)
                (v_filePath v) acc (v_visitedSet v) (v_depth v) trace)
      as (completion & heap & H).
    { eapply Nat.le_lt_trans; [apply filter_length_le|assumption]. }
    exists completion, heap.
    rewrite (findAllImportsWithCallbackSync_validated env A _ _ _ _ _ v cb acc
               E Ec).
    split; exact H.
Qed.

(** Two frames of the synchronous variant under [maxDepth = 0]. *)
Lemma callback_variants_return_witness :
  exists completion heap,
    findAllImportsWithCallbackSync cycleEnv (list string) 2 (VString "/p/a.js")
      (ConfigObject _ (CallbackFunction _ recordFile) [])
      (typedOptions "/p" [] 0 0) [] = Some (completion, heap) /\
    findAllImportsWithCallbackAsync cycleEnv (list string) 2
      (VString "/p/a.js")
      (ConfigObject _ (CallbackFunction _ recordFile) [])
      (typedOptions "/p" [] 0 0) [] = Some (completion, heap).
Proof.
  apply (proj1 callback_variants_return cycleEnv (list string) 2 recordFile
           "/p/a.js" [] "/p" [] 0%Z 0%Z []);
    [reflexivity|reflexivity|lia|cbn; lia].
Defined.
